(** * Realtime reconciliation in the Welcome view of echo-chat

    A shallow embedding of [WelcomeComponent]: its socket listener
    [handleRealtimeMessage], the [useEffect] that binds and unbinds it on the
    ["realtime"] event, and the store actions it dispatches.

    JavaScript effects are made explicit.  A computation runs against a
    [Runtime] (the Redux state and the chronological trace of observable
    effects) and ends in a [Completion]: a normal value or a thrown error.
    The Redux root reducer is a parameter of the development, so statements
    about the handler hold for every reducer, including reducers that throw. *)

From Stdlib Require Import List String ZArith Lia Bool Arith Permutation.
From Stdlib Require Import NArith Ascii.
Import ListNotations.
Open Scope string_scope.
Open Scope list_scope.

Set Implicit Arguments.

(** ** Data *)

(** Modelled from the spec: the global type [ChatTypes] is declared outside the
    component.  A chat summary record has an identifier and the metadata of a
    preview (last message text, timestamp, unread indicator) with a membership
    list.  The component itself only reads [_id]. *)
Record ChatTypes : Type := mkChat {
  _id : string;
  lastMessage : string;
  updatedAt : Z;
  unread : bool;
  users : list string
}.

(** Modelled from the spec: the global type [MessageTypes] is declared outside
    the component.  An envelope carries the chat identifier, the message body,
    the sender and a timestamp.  A field a malformed envelope lacks reads as
    [undefined] in JavaScript, which is [None] here. *)
Record MessageTypes : Type := mkMessage {
  chatId : option string;
  content : option string;
  senderId : string;
  createdAt : Z
}.

(** The two actions the component creates: [api.util.invalidateTags(tags)] and
    [appendLatestChat(chat)]. *)
Inductive Action : Type :=
| InvalidateTags (tags : list string)
| AppendLatestChat (chat : ChatTypes).

Definition invalidateTags (tags : list string) : Action := InvalidateTags tags.
Definition appendLatestChat (chat : ChatTypes) : Action := AppendLatestChat chat.

Definition JsError : Type := string.

(** Observable effects of the application, in the order they happen. *)
Inductive Event : Type :=
| EvDispatch (a : Action)                       (* dispatch(a) was called *)
| EvConsoleError (label : string) (err : JsError) (* console.error(label, err) *)
| EvInvoke (handler : nat)                      (* the socket called a listener *)
| EvRequest (url : string).                     (* an HTTP request (axios) *)

Inductive Completion (A : Type) : Type :=
| Normal (a : A)
| Throw (e : JsError).
Arguments Normal {A} a.
Arguments Throw {A} e.

(** State of the promise an [async] function returns. *)
Inductive Promise : Type :=
| Pending
| Fulfilled
| Rejected (e : JsError).

(** [chat._id === msg.chatId] where the right-hand side may be [undefined]. *)
Definition strictEq (id : string) (v : option string) : bool :=
  match v with
  | Some s => String.eqb id s
  | None => false
  end.

Definition isChatsSignal (e : Event) : bool :=
  match e with
  | EvDispatch (InvalidateTags tags) =>
      if list_eq_dec string_dec tags ["Chats"] then true else false
  | _ => false
  end.

Definition isRequest (e : Event) : bool :=
  match e with
  | EvRequest _ => true
  | _ => false
  end.

Definition isConsoleError (e : Event) : bool :=
  match e with
  | EvConsoleError _ _ => true
  | _ => false
  end.

Definition isAppend (e : Event) : bool :=
  match e with
  | EvDispatch (AppendLatestChat _) => true
  | _ => false
  end.

Definition ids (chats : list ChatTypes) : list string := map _id chats.

(** The events of one run of the handler, and its lookup. *)
Definition appendEvent (chat : ChatTypes) : Event :=
  EvDispatch (appendLatestChat chat).

Definition chatsSignal : Event := EvDispatch (invalidateTags ["Chats"]).

Definition failureLabel : string := "Failed to handle real-time message:".

Definition matching (chats : list ChatTypes) (msg : MessageTypes) : list ChatTypes :=
  filter (fun chat => strictEq (_id chat) (chatId msg)) chats.

(** A registration made by [socket.on(event, fn)].  The function is a closure
    of [handleRealtimeMessage]: it has an identity, and the [chats] it captured
    when the effect ran. *)
Record Listener : Type := mkListener {
  l_socket : nat;
  l_event : string;
  l_handler : nat;
  l_chats : list ChatTypes
}.

(** The function returned by the effect: it captured [socket] and
    [handleRealtimeMessage]. *)
Record Cleanup : Type := mkCleanup {
  c_socket : option nat;
  c_handler : nat
}.

Definition sameBinding (s : nat) (ev : string) (h : nat) (l : Listener) : bool :=
  Nat.eqb (l_socket l) s && String.eqb (l_event l) ev && Nat.eqb (l_handler l) h.

Definition listensTo (s : nat) (ev : string) (l : Listener) : bool :=
  Nat.eqb (l_socket l) s && String.eqb (l_event l) ev.

(** The emitter's [off] drops the first registration of the function only. *)
Fixpoint removeFirst (p : Listener -> bool) (ls : list Listener) : list Listener :=
  match ls with
  | [] => []
  | l :: rest => if p l then rest else l :: removeFirst p rest
  end.

(** [socket?.on(ev, fn)]: nothing happens while there is no socket. *)
Definition socketOn (sock : option nat) (ev : string) (h : nat)
    (chats : list ChatTypes) (ls : list Listener) : list Listener :=
  match sock with
  | Some s => ls ++ [mkListener s ev h chats]
  | None => ls
  end.

(** [socket?.off(ev, fn)]. *)
Definition socketOff (sock : option nat) (ev : string) (h : nat)
    (ls : list Listener) : list Listener :=
  match sock with
  | Some s => removeFirst (sameBinding s ev h) ls
  | None => ls
  end.

Definition handlers (ls : list Listener) : list nat := map l_handler ls.

(** Every closure registered in [ls] is older than the closure [n]. *)
Definition base_le_handler (ls : list Listener) (n : nat) : Prop :=
  Forall (fun h => h < n) (handlers ls).

(** ** The handler, for an arbitrary Redux store *)

Section Reconciler.

Variable AppState : Type.

(** The root reducer run by [dispatch]; [Throw] when a reducer or a
    middleware throws. *)
Variable rootReducer : Action -> AppState -> Completion AppState.

Record Runtime : Type := mkRuntime {
  store : AppState;
  trace : list Event
}.

Definition JS (A : Type) : Type := Runtime -> Completion A * Runtime.

Definition ret {A} (a : A) : JS A := fun r => (Normal a, r).

Definition bind {A B} (m : JS A) (k : A -> JS B) : JS B :=
  fun r =>
    match m r with
    | (Normal a, r') => k a r'
    | (Throw e, r') => (Throw e, r')
    end.

Notation "x <- m ;; k" := (bind m (fun x => k))
  (at level 61, m at next level, right associativity).

Definition tryCatch {A} (m : JS A) (handler : JsError -> JS A) : JS A :=
  fun r =>
    match m r with
    | (Normal a, r') => (Normal a, r')
    | (Throw e, r') => handler e r'
    end.

Definition emitEvent (e : Event) (r : Runtime) : Runtime :=
  {| store := store r; trace := trace r ++ [e] |}.

(** Redux [dispatch]: runs the reducer and returns the action. *)
Definition dispatch (a : Action) : JS Action :=
  fun r =>
    let r1 := emitEvent (EvDispatch a) r in
    match rootReducer a (store r1) with
    | Normal s => (Normal a, {| store := s; trace := trace r1 |})
    | Throw e => (Throw e, r1)
    end.

Definition consoleError (label : string) (err : JsError) : JS unit :=
  fun r => (Normal tt, emitEvent (EvConsoleError label err) r).

(** [Array.prototype.map] with an effectful callback: left to right, and a
    throw abandons the remaining elements. *)
Fixpoint arrayMap {A B} (f : A -> JS B) (l : list A) : JS (list B) :=
  match l with
  | [] => ret []
  | x :: rest =>
      y <- f x ;;
      ys <- arrayMap f rest ;;
      ret (y :: ys)
  end.

(** [await Promise.all([a, actions])]: neither entry is a promise, so the
    wait cannot reject; the function is suspended until the next tick. *)
Definition awaitAll (a : Action) (actions : list Action) : JS Promise :=
  ret Pending.

Definition handleRealtimeMessage (chats : list ChatTypes) (msg : MessageTypes)
  : JS Promise :=
  tryCatch
    (refetchChatsPromise <- dispatch (invalidateTags ["Chats"]) ;;
     appendLatestChatPromise <-
       arrayMap (fun chat => dispatch (appendLatestChat chat))
                (filter (fun chat => strictEq (_id chat) (chatId msg)) chats) ;;
     awaitAll refetchChatsPromise appendLatestChatPromise)
    (fun err =>
       _ <- consoleError "Failed to handle real-time message:" err ;;
       ret Fulfilled).

(** What remains of the handler after the [await]: the [try] block ends and
    the promise is fulfilled. *)
Definition settle (p : Promise) : JS Promise :=
  match p with
  | Pending => ret Fulfilled
  | _ => ret p
  end.

(** Events added to the trace between two runtimes. *)
Definition eventsSince (r r' : Runtime) : list Event :=
  skipn (List.length (trace r)) (trace r').

(** ** The effect and the socket *)

(** [useSelector((state) => state.chats)]. *)
Variable selectChats : AppState -> list ChatTypes.

Record World : Type := mkWorld {
  runtime : Runtime;
  listeners : list Listener;      (* registrations, oldest first *)
  cleanup : option Cleanup;       (* cleanup of the effect React holds *)
  nextHandler : nat;              (* identity of the next closure *)
  inflight : list nat             (* handlers suspended at their await *)
}.

(** Body of the effect: a new closure of the handler over the [chats] of this
    render is registered, and the cleanup is returned to React. *)
Definition welcomeEffect (socket : option nat) (w : World) : World :=
  let h := nextHandler w in
  let chats := selectChats (store (runtime w)) in
  {| runtime := runtime w;
     listeners := socketOn socket "realtime" h chats (listeners w);
     cleanup := Some (mkCleanup socket h);
     nextHandler := S h;
     inflight := inflight w |}.

Definition welcomeCleanup (c : Cleanup) (w : World) : World :=
  {| runtime := runtime w;
     listeners := socketOff (c_socket c) "realtime" (c_handler c) (listeners w);
     cleanup := cleanup w;
     nextHandler := nextHandler w;
     inflight := inflight w |}.

(** React runs the effect on mount and whenever [chats], [socket] or
    [dispatch] changed, and runs the previous cleanup first. *)
Definition reactCommit (socket : option nat) (w : World) : World :=
  welcomeEffect socket
    match cleanup w with
    | Some c => welcomeCleanup c w
    | None => w
    end.

Definition reactUnmount (w : World) : World :=
  match cleanup w with
  | Some c =>
      let w' := welcomeCleanup c w in
      {| runtime := runtime w';
         listeners := listeners w';
         cleanup := None;
         nextHandler := nextHandler w';
         inflight := inflight w' |}
  | None => w
  end.

(** The socket calls one listener.  The listener is an [async] function, so
    the emitter gets a promise back and never sees a throw. *)
Definition invoke (msg : MessageTypes) (w : World) (l : Listener) : World :=
  let called := emitEvent (EvInvoke (l_handler l)) (runtime w) in
  match handleRealtimeMessage (l_chats l) msg called with
  | (Normal Pending, r') =>
      {| runtime := r';
         listeners := listeners w;
         cleanup := cleanup w;
         nextHandler := nextHandler w;
         inflight := l_handler l :: inflight w |}
  | (_, r') =>
      {| runtime := r';
         listeners := listeners w;
         cleanup := cleanup w;
         nextHandler := nextHandler w;
         inflight := inflight w |}
  end.

(** An inbound event reaches the listeners registered at that moment, in
    registration order. *)
Definition emit (socket : nat) (ev : string) (msg : MessageTypes) (w : World)
  : World :=
  fold_left (invoke msg) (filter (listensTo socket ev) (listeners w)) w.

(** A suspended handler resumes after its [await]. *)
Definition resume (h : nat) (w : World) : World :=
  match settle Pending (runtime w) with
  | (_, r') =>
      {| runtime := r';
         listeners := listeners w;
         cleanup := cleanup w;
         nextHandler := nextHandler w;
         inflight := remove Nat.eq_dec h (inflight w) |}
  end.

(** What the event loop can do next. *)
Inductive Step : Type :=
| Deliver (socket : nat) (msg : MessageTypes)
| Render (socket : option nat)
| Unmount
| Resume (h : nat).

Definition runStep (w : World) (s : Step) : World :=
  match s with
  | Deliver socket msg => emit socket "realtime" msg w
  | Render socket => reactCommit socket w
  | Unmount => reactUnmount w
  | Resume h => resume h w
  end.

Definition run (steps : list Step) (w : World) : World :=
  fold_left runStep steps w.

Definition initialWorld (s : AppState) : World :=
  {| runtime := {| store := s; trace := [] |};
     listeners := [];
     cleanup := None;
     nextHandler := 0;
     inflight := [] |}.

(** Handler identities are handed out in increasing order and registered at
    most once, and the cleanup React holds names the socket and the event its
    handler was registered on. *)
Definition wellFormed (w : World) : Prop :=
  NoDup (handlers (listeners w))
  /\ Forall (fun h => h < nextHandler w) (handlers (listeners w))
  /\ match cleanup w with
     | Some c =>
         c_handler c < nextHandler w
         /\ forall l, In l (listeners w) -> l_handler l = c_handler c ->
                      c_socket c = Some (l_socket l) /\ l_event l = "realtime"
     | None => True
     end.

(** A handler is detached when its identity was handed out and it is
    registered on no socket. *)
Definition detached (h : nat) (w : World) : Prop :=
  h < nextHandler w /\ ~ In h (handlers (listeners w)).

(** What the view has registered on top of the listeners [base] that were
    there before it mounted: nothing, or the one closure its cleanup names. *)
Definition ownsAtMostOne (base : list Listener) (w : World) : Prop :=
  Forall (fun h => h < nextHandler w) (handlers base)
  /\ match cleanup w with
     | None => listeners w = base
     | Some c =>
         base_le_handler base (c_handler c)
         /\ exists chats,
             listeners w
             = socketOn (c_socket c) "realtime" (c_handler c) chats base
     end.

End Reconciler.

(** ** The handler on a raw payload, and the dispatches it plans *)

Section Payload.

Variable AppState : Type.
Variable rootReducer : Action -> AppState -> Completion AppState.

Notation "x <- m ;; k" := (bind m (fun x => k))
  (at level 61, m at next level, right associativity).

Definition jsThrow {A} (e : JsError) : JS AppState A := fun r => (Throw e, r).

(** The [TypeError] of reading [chatId] of [undefined] or [null]. *)
Definition chatIdOfNothing : JsError :=
  "TypeError: Cannot read properties of undefined (reading 'chatId')".

(** [msg.chatId], where the payload of the packet may be no object at all. *)
Definition readChatId (payload : option MessageTypes)
  : JS AppState (option string) :=
  match payload with
  | Some msg => ret (chatId msg)
  | None => jsThrow chatIdOfNothing
  end.

(** [Array.prototype.filter] with a callback that may throw: left to right. *)
Fixpoint arrayFilter {A} (f : A -> JS AppState bool) (l : list A)
  : JS AppState (list A) :=
  match l with
  | [] => ret []
  | x :: rest =>
      keep <- f x ;;
      kept <- arrayFilter f rest ;;
      ret (if keep then x :: kept else kept)
  end.

(** The handler as the socket calls it: [msg] is whatever the packet
    carried, [None] for [undefined] or [null].  On an envelope object it is
    [handleRealtimeMessage]. *)
Definition handleRealtimePayload (chats : list ChatTypes)
    (payload : option MessageTypes) : JS AppState Promise :=
  tryCatch
    (refetchChatsPromise <- dispatch rootReducer (invalidateTags ["Chats"]) ;;
     matches <-
       arrayFilter (fun chat => id <- readChatId payload ;;
                                ret (strictEq (_id chat) id)) chats ;;
     appendLatestChatPromise <-
       arrayMap (fun chat => dispatch rootReducer (appendLatestChat chat))
                matches ;;
     awaitAll refetchChatsPromise appendLatestChatPromise)
    (fun err =>
       _ <- consoleError "Failed to handle real-time message:" err ;;
       ret Fulfilled).

(** The actions one call of the handler sets out to dispatch, in order. *)
Definition planned (chats : list ChatTypes) (msg : MessageTypes) : list Action :=
  invalidateTags ["Chats"] :: map appendLatestChat (matching chats msg).

(** The reducer run over a list of actions: the store they lead to, or the
    first error one of them throws. *)
Fixpoint reduceAll (actions : list Action) (s : AppState)
  : Completion AppState :=
  match actions with
  | [] => Normal s
  | a :: rest =>
      match rootReducer a s with
      | Normal s' => reduceAll rest s'
      | Throw e => Throw e
      end
  end.

End Payload.

(** ** The store the spec describes *)

(** Modelled from the spec: the slice behind [state.chats] and the reducer of
    [appendLatestChat] live in [@/store], outside the component.  The Chat
    Summary Store is an ordered collection, most recently active chat first,
    with one record per identifier; staleness is a set of tags. *)
Record SpecState : Type := mkSpecState {
  summaries : list ChatTypes;
  staleTags : list string
}.

(** Modelled from the spec: signalling a tag that is already stale changes
    nothing. *)
Definition markStale (tags stale : list string) : list string :=
  fold_right (fun t acc => if in_dec string_dec t acc then acc else t :: acc)
             stale tags.

(** Modelled from the spec: [updateChatSummary(record)], the reducer of
    [appendLatestChat].  The record takes the most recent position, no second
    record with its identifier is left, and the other records keep their
    relative order. *)
Definition updateChatSummary (record : ChatTypes) (chats : list ChatTypes)
  : list ChatTypes :=
  record :: filter (fun c => negb (String.eqb (_id c) (_id record))) chats.

(** Modelled from the spec: the root reducer over [SpecState]; it never throws. *)
Definition specReducer (a : Action) (s : SpecState) : Completion SpecState :=
  match a with
  | InvalidateTags tags =>
      Normal {| summaries := summaries s; staleTags := markStale tags (staleTags s) |}
  | AppendLatestChat chat =>
      Normal {| summaries := updateChatSummary chat (summaries s);
                staleTags := staleTags s |}
  end.


(** The chats other than [cid], and a run of appends over the store. *)
Definition otherThan (cid : string) (c : ChatTypes) : bool :=
  negb (String.eqb (_id c) cid).

Definition applyAppends (cs : list ChatTypes) (chats : list ChatTypes)
  : list ChatTypes :=
  fold_left (fun acc c => updateChatSummary c acc) cs chats.

Definition chatsOf (w : World SpecState) : list ChatTypes :=
  summaries (store (runtime w)).


(** ** The end-to-end scenario of the spec *)

Definition chatA : ChatTypes := mkChat "A" "see you" 1 false ["u1"; "u2"].
Definition chatB : ChatTypes := mkChat "B" "on my way" 5 true ["u1"; "u3"].

(** Chats A (t=1) and B (t=5), most recent first. *)
Definition scenarioStore : SpecState := mkSpecState [chatB; chatA] [].
Definition scenarioRuntime : Runtime SpecState := mkRuntime scenarioStore [].

Definition envelopeA : MessageTypes := mkMessage (Some "A") (Some "hi") "u1" 10.
Definition envelopeA' : MessageTypes := mkMessage (Some "A") (Some "bye") "u2" 11.
Definition envelopeZ : MessageTypes := mkMessage (Some "Z") (Some "hi") "u1" 10.
Definition envelopeNoBody : MessageTypes := mkMessage (Some "A") None "u1" 10.
Definition envelopeNoChat : MessageTypes := mkMessage None (Some "hi") "u1" 10.

(** The view mounted on socket 0 over the scenario store. *)
Definition mountedWorld : World SpecState :=
  run specReducer summaries [Render (Some 0)] (initialWorld scenarioStore).

(** ** Two statements of the spec, as it words them *)

(** The spec's step 3: in a store with one record per identifier, the text
    and the timestamp of an envelope that has a body end up in the record of
    the matching chat. *)
Definition mergesEnvelopeContent : Prop :=
  forall (r : Runtime SpecState) (msg : MessageTypes) (c : ChatTypes)
         (text : string),
    NoDup (ids (summaries (store r))) ->
    In c (summaries (store r)) ->
    chatId msg = Some (_id c) ->
    content msg = Some text ->
    let r' := snd (handleRealtimeMessage specReducer (summaries (store r)) msg r) in
    exists c', In c' (summaries (store r'))
               /\ _id c' = _id c
               /\ lastMessage c' = text
               /\ updatedAt c' = createdAt msg.

(** The spec's failure handling: an envelope without [chatId] or without body
    is logged and dropped, with no reconciliation. *)
Definition rejectsMalformedEnvelopes : Prop :=
  forall (chats : list ChatTypes) (msg : MessageTypes) (r : Runtime SpecState),
    chatId msg = None \/ content msg = None ->
    let evs := eventsSince r (snd (handleRealtimeMessage specReducer chats msg r)) in
    existsb isConsoleError evs = true /\ filter isAppend evs = [].

Unset Implicit Arguments.

(** ** Strings and regular expressions of the form schemas *)

(** A JavaScript string is a sequence of UTF-16 code units. *)
Definition JsString : Type := list N.

(** The code units of an ASCII literal. *)
Definition units (s : string) : JsString :=
  map N_of_ascii (list_ascii_of_string s).

Definition inRanges (ranges : list (N * N)) (c : N) : bool :=
  existsb (fun range => N.leb (fst range) c && N.leb c (snd range)) ranges.

(** Line terminators, which [.] does not match: LF, CR, U+2028, U+2029. *)
Definition isLineTerminator (c : N) : bool :=
  N.eqb c 10 || N.eqb c 13 || N.eqb c 8232 || N.eqb c 8233.

(** The part of the regular expression syntax the schemas use. *)
Inductive Regex : Type :=
| Chars (ranges : list (N * N))      (* a character class *)
| Dot                                (* . *)
| Seq (r1 r2 : Regex)
| Star (r : Regex)
| Plus (r : Regex)
| LookAhead (r : Regex)              (* (?=r) *)
| Bol                                (* ^ without the m flag *)
| Eol.                               (* $ without the m flag *)

(** A position in the input: the index and what is left to read. *)
Definition Pos : Type := (nat * JsString)%type.

Definition oneUnit (f : N -> bool) (p : Pos) : list Pos :=
  match snd p with
  | c :: rest => if f c then [(S (fst p), rest)] else []
  | [] => []
  end.

(** Zero or more rounds of [step]; a round that consumes nothing is not
    repeated. *)
Fixpoint iterate (step : Pos -> list Pos) (fuel : nat) (p : Pos) : list Pos :=
  p :: match fuel with
       | 0 => []
       | S fuel' =>
           flat_map (fun q => if Nat.ltb (List.length (snd q)) (List.length (snd p))
                              then iterate step fuel' q else [])
                    (step p)
       end.

(** All positions at which a match of [r] started at [p] can end. *)
Fixpoint ends (r : Regex) (p : Pos) : list Pos :=
  match r with
  | Chars ranges => oneUnit (inRanges ranges) p
  | Dot => oneUnit (fun c => negb (isLineTerminator c)) p
  | Seq r1 r2 => flat_map (ends r2) (ends r1 p)
  | Star r1 => iterate (ends r1) (List.length (snd p)) p
  | Plus r1 =>
      flat_map (fun q => iterate (ends r1) (List.length (snd q)) q) (ends r1 p)
  | LookAhead r1 => match ends r1 p with [] => [] | _ :: _ => [p] end
  | Bol => if Nat.eqb (fst p) 0 then [p] else []
  | Eol => match snd p with [] => [p] | _ :: _ => [] end
  end.

Fixpoint searchFrom (r : Regex) (i : nat) (s : JsString) : bool :=
  match ends r (i, s) with
  | _ :: _ => true
  | [] => match s with
          | [] => false
          | _ :: rest => searchFrom r (S i) rest
          end
  end.

(** [value.search(regex) !== -1]. *)
Definition search (r : Regex) (s : JsString) : bool := searchFrom r 0 s.

Definition nonEmpty {A : Type} (l : list A) : bool :=
  match l with
  | [] => false
  | _ :: _ => true
  end.

(** The input up to its first line terminator. *)
Fixpoint firstLine (s : JsString) : JsString :=
  match s with
  | [] => []
  | c :: rest => if isLineTerminator c then [] else c :: firstLine rest
  end.

(** ** The validation library, as the schemas use it *)

Module Yup.

(** A schema for one field: its tests in the order they were chained, each
    with its message.  A test sees the value, or [None] for [undefined]. *)
Definition Schema (V : Type) : Type := list ((option V -> bool) * string).

(** [.required(message)]: the value is defined and not the empty string. *)
Definition required (value : option JsString) : bool :=
  match value with
  | Some v => negb (Nat.eqb (List.length v) 0)
  | None => false
  end.

(** [.min(n, message)]; an absent value is not tested. *)
Definition min (n : nat) (value : option JsString) : bool :=
  match value with
  | Some v => Nat.leb n (List.length v)
  | None => true
  end.

(** [.max(n, message)]. *)
Definition max (n : nat) (value : option JsString) : bool :=
  match value with
  | Some v => Nat.leb (List.length v) n
  | None => true
  end.

(** [.matches(regex, message)]. *)
Definition matches (r : Regex) (value : option JsString) : bool :=
  match value with
  | Some v => search r v
  | None => true
  end.

(** The error the resolver keeps for a field: the message of the first test
    that fails. *)
Fixpoint validate {V : Type} (schema : Schema V) (value : option V)
  : option string :=
  match schema with
  | [] => None
  | (test, message) :: rest =>
      if test value then validate rest value else Some message
  end.

End Yup.

(** A file of a [FileList]. *)
Record File : Type := mkFile {
  type : string;
  size : N
}.

(** ** What the sign-up and log-in pages share *)

(** The two actions the pages dispatch: [setAuth(value)] and an action of the
    api slice. *)
Inductive PageAction : Type :=
| SetAuth (value : bool)
| Api (a : Action).

Definition setAuth (value : bool) : PageAction := SetAuth value.

(** What a [catch] clause of a page can receive: a rejection of the request,
    with [error.response?.data?.message] when the server sent one, or an
    error thrown by a dispatch. *)
Inductive Thrown : Type :=
| AxiosError (message : option string)
| OtherError (e : JsError).

(** [error.response?.data?.message]. *)
Definition responseMessage (t : Thrown) : option string :=
  match t with
  | AxiosError message => message
  | OtherError _ => None
  end.

(** [value || fallback] on an optional string: the empty string is falsy. *)
Definition orElse (value : option string) (fallback : string) : string :=
  match value with
  | Some EmptyString => fallback
  | Some s => s
  | None => fallback
  end.

Inductive Outcome (A : Type) : Type :=
| Returned (a : A)
| Raised (t : Thrown).
Arguments Returned {A} a.
Arguments Raised {A} t.

(** Observable effects of a page, in the order they happen; [P] is the type
    of a request body. *)
Inductive PageEvent (P : Type) : Type :=
| SetLoading (value : bool)
| Post (url : string) (body : P) (contentType : option string)
| ResetForm
| Dispatched (a : PageAction)
| Navigate (to : string)
| ToastSuccess (message : string)
| ToastError (message : string)
| ConsoleError (label : string) (error : Thrown)
| SetValue (field : string) (value : JsString).
Arguments SetLoading {P} value.
Arguments Post {P} url body contentType.
Arguments ResetForm {P}.
Arguments Dispatched {P} a.
Arguments Navigate {P} to.
Arguments ToastSuccess {P} message.
Arguments ToastError {P} message.
Arguments ConsoleError {P} label error.
Arguments SetValue {P} field value.

(** A page: the Redux store [S], the form values [V] and errors [E] held by
    the form library, the [loading] state, the location and the trace. *)
Record Page (S V E P : Type) : Type := mkPage {
  p_store : S;
  p_values : V;
  p_errors : E;
  p_loading : bool;
  p_location : string;
  p_trace : list (PageEvent P)
}.
Arguments mkPage {S V E P} _ _ _ _ _ _.
Arguments p_store {S V E P} _.
Arguments p_values {S V E P} _.
Arguments p_errors {S V E P} _.
Arguments p_loading {S V E P} _.
Arguments p_location {S V E P} _.
Arguments p_trace {S V E P} _.

Section PageModel.

Variables S V E P : Type.

(** The root reducer; [Raised] when it throws. *)
Variable reducer : PageAction -> S -> Outcome S.

(** The server behind [axios.post]: the message of the response, or the
    rejection. *)
Variable server : string -> P -> Outcome string.

(** The resolver of the form ([yupResolver(schema)]), the test for an empty
    errors object, and the values and errors of a reset form. *)
Variable resolver : V -> E.
Variable isEmptyObject : E -> bool.
Variable defaultValues : V.
Variable noErrors : E.

Definition PageM (A : Type) : Type :=
  Page S V E P -> Outcome A * Page S V E P.

Definition pret {A} (a : A) : PageM A := fun p => (Returned a, p).

Definition pbind {A B} (m : PageM A) (k : A -> PageM B) : PageM B :=
  fun p =>
    match m p with
    | (Returned a, p') => k a p'
    | (Raised t, p') => (Raised t, p')
    end.

(** [try body catch (error) handler finally fin]: [fin] runs on every path,
    and a throw of the handler is re-thrown after it. *)
Definition tryCatchFinally {A} (body : PageM A) (handler : Thrown -> PageM A)
    (fin : PageM unit) : PageM A :=
  fun p =>
    let attempt :=
      match body p with
      | (Returned a, p1) => (Returned a, p1)
      | (Raised t, p1) => handler t p1
      end in
    match fin (snd attempt) with
    | (Returned _, p2) => (fst attempt, p2)
    | (Raised t, p2) => (Raised t, p2)
    end.

Definition record (e : PageEvent P) (p : Page S V E P) : Page S V E P :=
  mkPage (p_store p) (p_values p) (p_errors p) (p_loading p) (p_location p)
         (p_trace p ++ [e]).

Definition setLoading (value : bool) : PageM unit :=
  fun p =>
    (Returned tt,
     mkPage (p_store p) (p_values p) (p_errors p) value (p_location p)
            (p_trace p ++ [SetLoading value])).

Definition axiosPost (url : string) (body : P) (contentType : option string)
  : PageM string :=
  fun p => (server url body, record (Post url body contentType) p).

(** [reset()]: the form goes back to its default values, without errors. *)
Definition reset : PageM unit :=
  fun p =>
    (Returned tt,
     mkPage (p_store p) defaultValues noErrors (p_loading p) (p_location p)
            (p_trace p ++ [ResetForm])).

Definition pageDispatch (a : PageAction) : PageM unit :=
  fun p =>
    let p1 := record (Dispatched a) p in
    match reducer a (p_store p) with
    | Returned s =>
        (Returned tt,
         mkPage s (p_values p1) (p_errors p1) (p_loading p1) (p_location p1)
                (p_trace p1))
    | Raised t => (Raised t, p1)
    end.

Definition navigate (to : string) : PageM unit :=
  fun p =>
    (Returned tt,
     mkPage (p_store p) (p_values p) (p_errors p) (p_loading p) to
            (p_trace p ++ [Navigate to])).

Definition toastSuccess (message : string) : PageM unit :=
  fun p => (Returned tt, record (ToastSuccess message) p).

Definition toastError (message : string) : PageM unit :=
  fun p => (Returned tt, record (ToastError message) p).

Definition pageConsoleError (label : string) (error : Thrown) : PageM unit :=
  fun p => (Returned tt, record (ConsoleError label error) p).

(** [trigger()]: the form values are validated again, the errors are stored
    and the result says whether there is none. *)
Definition trigger : PageM bool :=
  fun p =>
    let errors := resolver (p_values p) in
    (Returned (isEmptyObject errors),
     mkPage (p_store p) (p_values p) errors (p_loading p) (p_location p)
            (p_trace p)).

(** [handleSubmit(onValid)]: the values are validated and the errors stored;
    [onValid] is called with the values only when there is no error. *)
Definition handleSubmit (onValid : V -> PageM unit) : PageM unit :=
  fun p =>
    let errors := resolver (p_values p) in
    let p1 := mkPage (p_store p) (p_values p) errors (p_loading p)
                     (p_location p) (p_trace p) in
    if isEmptyObject errors then onValid (p_values p) p1 else (Returned tt, p1).

(** The shape the two submit handlers share: the request, then reset, the
    two dispatches around the navigation and the success toast; the error
    toast and the log on any throw; [loading] around it all. *)
Definition requestFlow (url : string) (body : P) (contentType : option string)
    (fallback label : string) : PageM unit :=
  pbind (setLoading true) (fun _ =>
  tryCatchFinally
    (pbind (axiosPost url body contentType) (fun response =>
     pbind reset (fun _ =>
     pbind (pageDispatch (setAuth true)) (fun _ =>
     pbind (navigate "/") (fun _ =>
     pbind (pageDispatch (Api (invalidateTags ["Auth"; "User"; "Chats"])))
           (fun _ => toastSuccess response))))))
    (fun error =>
       pbind (toastError (orElse (responseMessage error) fallback)) (fun _ =>
       pageConsoleError label error))
    (setLoading false)).

Definition isPost (e : PageEvent P) : bool :=
  match e with
  | Post _ _ _ => true
  | _ => false
  end.

Definition isToast (e : PageEvent P) : bool :=
  match e with
  | ToastSuccess _ | ToastError _ => true
  | _ => false
  end.

(** Events added to the trace between two states of the page. *)
Definition pageEventsSince (p p' : Page S V E P) : list (PageEvent P) :=
  skipn (List.length (p_trace p)) (p_trace p').

End PageModel.

Arguments pret {S V E P A} a _.
Arguments pbind {S V E P A B} m k _.
Arguments tryCatchFinally {S V E P A} body handler fin _.
Arguments setLoading {S V E P} value _.
Arguments axiosPost {S V E P} server url body contentType _.
Arguments reset {S V E P} defaultValues noErrors _.
Arguments pageDispatch {S V E P} reducer a _.
Arguments navigate {S V E P} to _.
Arguments toastSuccess {S V E P} message _.
Arguments toastError {S V E P} message _.
Arguments pageConsoleError {S V E P} label error _.
Arguments trigger {S V E P} resolver isEmptyObject _.
Arguments handleSubmit {S V E P} resolver isEmptyObject onValid _.
Arguments pageEventsSince {S V E P} p p'.
Arguments requestFlow {S V E P} reducer server defaultValues noErrors url body contentType fallback label _.
Arguments isPost {P} e.
Arguments isToast {P} e.

(** ** The sign-up page *)

Module SignUp.

Record SignupFormData : Type := mkData {
  username : option JsString;
  bio : option JsString;
  password : option JsString;
  avatar : option (list File)
}.

(** [formState.errors]: the message of each field that has an error. *)
Record Errors : Type := mkErrors {
  err_username : option string;
  err_bio : option string;
  err_password : option string;
  err_avatar : option string
}.

(** The body of the request: the data, with the first file for [avatar]. *)
Record Body : Type := mkBody {
  body_username : option JsString;
  body_bio : option JsString;
  body_password : option JsString;
  body_avatar : option File
}.

(** [/^[a-zA-Z0-9_]+$/] *)
Definition usernamePattern : Regex :=
  Seq Bol (Seq (Plus (Chars [(97, 122); (65, 90); (48, 57); (95, 95)]%N)) Eol).

(** [/^(?=.*[a-z])(?=.*[A-Z])(?=.*[0-9])(?=.*[!@#\$%\^&\*])/] *)
Definition passwordPattern : Regex :=
  Seq Bol
    (Seq (LookAhead (Seq (Star Dot) (Chars [(97, 122)]%N)))
    (Seq (LookAhead (Seq (Star Dot) (Chars [(65, 90)]%N)))
    (Seq (LookAhead (Seq (Star Dot) (Chars [(48, 57)]%N)))
         (LookAhead (Seq (Star Dot)
            (Chars [(33, 33); (64, 64); (35, 35); (36, 36); (37, 37);
                    (94, 94); (38, 38); (42, 42)]%N)))))).

Definition usernameSchema : Yup.Schema JsString :=
  [ (Yup.required, "Username is required !");
    (Yup.min 4, "Username must be at least 4 characters !");
    (Yup.max 12, "Username must not exceed 12 characters !");
    (Yup.matches usernamePattern,
     "Username can only contain letters, numbers, and underscores !") ].

Definition bioSchema : Yup.Schema JsString :=
  [ (Yup.max 50, "Bio must not exceed 50 characters !") ].

Definition passwordSchema : Yup.Schema JsString :=
  [ (Yup.required, "Password is required !");
    (Yup.min 6, "Password must be at least 6 characters !");
    (Yup.max 16, "Password must not exceed 16 characters !");
    (Yup.matches passwordPattern,
     "Password must contain at least one uppercase letter, one lowercase letter, one number, and one special character !") ].

(** The test named "fileType". *)
Definition fileType (value : option (list File)) : bool :=
  match value with
  | Some (file :: _) =>
      existsb (String.eqb (type file))
              ["image/jpg"; "image/jpeg"; "image/png"; "image/webp"]
  | _ => true
  end.

(** The test named "fileSize". *)
Definition fileSize (value : option (list File)) : bool :=
  match value with
  | Some (file :: _) => N.leb (size file) (5 * 1024 * 1024)
  | _ => true
  end.

Definition avatarSchema : Yup.Schema (list File) :=
  [ (fileType, "Only jpg, jpeg, png and webp images are accepted !");
    (fileSize, "Avatar must be less than 5MB !") ].

(** [yupResolver(schema)]: the errors of the four fields. *)
Definition schema (data : SignupFormData) : Errors :=
  {| err_username := Yup.validate usernameSchema (username data);
     err_bio := Yup.validate bioSchema (bio data);
     err_password := Yup.validate passwordSchema (password data);
     err_avatar := Yup.validate avatarSchema (avatar data) |}.

Definition isEmptyObject (errors : Errors) : bool :=
  match err_username errors, err_bio errors, err_password errors,
        err_avatar errors with
  | None, None, None, None => true
  | _, _, _, _ => false
  end.

Definition defaultValues : SignupFormData := mkData None None None None.
Definition noErrors : Errors := mkErrors None None None None.

(** [{ ...data, avatar: data.avatar ? data.avatar[0] : undefined }] *)
Definition requestBody (data : SignupFormData) : Body :=
  {| body_username := username data;
     body_bio := bio data;
     body_password := password data;
     body_avatar := match avatar data with
                    | Some files => hd_error files
                    | None => None
                    end |}.

Section Handlers.

Variable S : Type.
Variable reducer : PageAction -> S -> Outcome S.
Variable server : string -> Body -> Outcome string.

Notation "x <- m ;; k" := (pbind m (fun x => k))
  (at level 61, m at next level, right associativity).

Definition M (A : Type) : Type := PageM S SignupFormData Errors Body A.

(** The effect that toasts the error of the first field that has one. *)
Definition toastErrors (errors : Errors) : M unit :=
  match err_username errors with
  | Some message => toastError message
  | None =>
      match err_bio errors with
      | Some message => toastError message
      | None =>
          match err_password errors with
          | Some message => toastError message
          | None =>
              match err_avatar errors with
              | Some message => toastError message
              | None => pret tt
              end
          end
      end
  end.

Definition signup (data : SignupFormData) : M unit :=
  _ <- setLoading true ;;
  tryCatchFinally
    (response <- axiosPost server "/auth/signup" (requestBody data)
                   (Some "multipart/form-data") ;;
     _ <- reset defaultValues noErrors ;;
     _ <- pageDispatch reducer (setAuth true) ;;
     _ <- navigate "/" ;;
     _ <- pageDispatch reducer (Api (invalidateTags ["Auth"; "User"; "Chats"])) ;;
     toastSuccess response)
    (fun error =>
       _ <- toastError (orElse (responseMessage error) "Failed to Sign Up !") ;;
       pageConsoleError "Failed to Sign Up:" error)
    (setLoading false).

(** The page once the form library has validated its values. *)
Definition checked (p : Page S SignupFormData Errors Body)
  : Page S SignupFormData Errors Body :=
  mkPage (p_store p) (p_values p) (schema (p_values p)) (p_loading p)
         (p_location p) (p_trace p).

Definition validation (data : SignupFormData) : M unit :=
  isValid <- trigger schema isEmptyObject ;;
  if negb isValid then pret tt else signup data.

(** A submit of the form: [handleSubmit(validation)], then the effect on the
    errors the submit left. *)
Definition onSubmit : M unit :=
  _ <- handleSubmit schema isEmptyObject validation ;;
  fun p => toastErrors (p_errors p) p.

End Handlers.

End SignUp.

(** ** The log-in page *)

Module Login.

Record LoginFormData : Type := mkData {
  username : option JsString;
  password : option JsString
}.

Record Errors : Type := mkErrors {
  err_username : option string;
  err_password : option string
}.

(** [/^[a-zA-Z0-9_]+$/] *)
Definition usernamePattern : Regex :=
  Seq Bol (Seq (Plus (Chars [(97, 122); (65, 90); (48, 57); (95, 95)]%N)) Eol).

(** [/^(?=.*[a-z])(?=.*[A-Z])(?=.*[0-9])(?=.*[!@#\$%\^&\*])/] *)
Definition passwordPattern : Regex :=
  Seq Bol
    (Seq (LookAhead (Seq (Star Dot) (Chars [(97, 122)]%N)))
    (Seq (LookAhead (Seq (Star Dot) (Chars [(65, 90)]%N)))
    (Seq (LookAhead (Seq (Star Dot) (Chars [(48, 57)]%N)))
         (LookAhead (Seq (Star Dot)
            (Chars [(33, 33); (64, 64); (35, 35); (36, 36); (37, 37);
                    (94, 94); (38, 38); (42, 42)]%N)))))).

Definition usernameSchema : Yup.Schema JsString :=
  [ (Yup.required, "Username is required");
    (Yup.min 4, "Username must be at least 4 characters");
    (Yup.max 12, "Username must not exceed 12 characters");
    (Yup.matches usernamePattern,
     "Username can only contain letters, numbers, and underscores !") ].

Definition passwordSchema : Yup.Schema JsString :=
  [ (Yup.required, "Password is required");
    (Yup.min 6, "Password must be at least 6 characters");
    (Yup.max 16, "Password must not exceed 16 characters");
    (Yup.matches passwordPattern,
     "Password must contain at least one uppercase letter, one lowercase letter, one number, and one special character") ].

Definition schema (data : LoginFormData) : Errors :=
  {| err_username := Yup.validate usernameSchema (username data);
     err_password := Yup.validate passwordSchema (password data) |}.

Definition isEmptyObject (errors : Errors) : bool :=
  match err_username errors, err_password errors with
  | None, None => true
  | _, _ => false
  end.

Definition defaultValues : LoginFormData := mkData None None.
Definition noErrors : Errors := mkErrors None None.

Inductive Field : Type := Username | Password.

Definition fieldName (field : Field) : string :=
  match field with
  | Username => "username"
  | Password => "password"
  end.

Section Handlers.

Variable S : Type.
Variable reducer : PageAction -> S -> Outcome S.
Variable server : string -> LoginFormData -> Outcome string.

Notation "x <- m ;; k" := (pbind m (fun x => k))
  (at level 61, m at next level, right associativity).

Definition M (A : Type) : Type := PageM S LoginFormData Errors LoginFormData A.

(** [setValue(name, value)]: the value of one field is replaced; nothing is
    validated. *)
Definition setValue (name : Field) (value : JsString) : M unit :=
  fun p =>
    let values :=
      match name with
      | Username => mkData (Some value) (password (p_values p))
      | Password => mkData (username (p_values p)) (Some value)
      end in
    (Returned tt,
     mkPage (p_store p) values (p_errors p) (p_loading p) (p_location p)
            (p_trace p ++ [SetValue (fieldName name) value])).

Definition toastErrors (errors : Errors) : M unit :=
  match err_username errors with
  | Some message => toastError message
  | None =>
      match err_password errors with
      | Some message => toastError message
      | None => pret tt
      end
  end.

Definition login (data : LoginFormData) : M unit :=
  _ <- setLoading true ;;
  tryCatchFinally
    (response <- axiosPost server "/auth/login" data None ;;
     _ <- reset defaultValues noErrors ;;
     _ <- pageDispatch reducer (setAuth true) ;;
     _ <- navigate "/" ;;
     _ <- pageDispatch reducer (Api (invalidateTags ["Auth"; "User"; "Chats"])) ;;
     toastSuccess response)
    (fun error =>
       _ <- toastError (orElse (responseMessage error) "Failed to Log In !") ;;
       pageConsoleError "Failed to Login:" error)
    (setLoading false).

(** The page once the form library has validated its values. *)
Definition checked (p : Page S LoginFormData Errors LoginFormData)
  : Page S LoginFormData Errors LoginFormData :=
  mkPage (p_store p) (p_values p) (schema (p_values p)) (p_loading p)
         (p_location p) (p_trace p).

Definition validation (data : LoginFormData) : M unit :=
  isValid <- trigger schema isEmptyObject ;;
  if negb isValid then pret tt else login data.

Definition fillCredentials (username password : JsString) : M unit :=
  _ <- setValue Username username ;;
  _ <- setValue Password password ;;
  toastSuccess "Credentials filled successfully !".

Definition onSubmit : M unit :=
  _ <- handleSubmit schema isEmptyObject validation ;;
  fun p => toastErrors (p_errors p) p.

End Handlers.

End Login.


(** ** Plain readings of the character classes *)

Definition isLower (c : N) : bool := N.leb 97 c && N.leb c 122.
Definition isUpper (c : N) : bool := N.leb 65 c && N.leb c 90.
Definition isDigit (c : N) : bool := N.leb 48 c && N.leb c 57.

(** A letter, a digit or the underscore. *)
Definition isWordUnit (c : N) : bool :=
  isLower c || isUpper c || isDigit c || N.eqb c 95.

(** One of [! @ # $ % ^ & *]. *)
Definition isSpecial (c : N) : bool :=
  existsb (N.eqb c) [33; 64; 35; 36; 37; 94; 38; 42]%N.

(** The four kinds of character a password needs, on one line of input. *)
Definition hasAllKinds (line : JsString) : bool :=
  existsb isLower line && existsb isUpper line && existsb isDigit line
  && existsb isSpecial line.

Definition acceptedImageTypes : list string :=
  ["image/jpg"; "image/jpeg"; "image/png"; "image/webp"].

(** ** Sample forms, servers and reducers *)

Definition aliceForm : SignUp.SignupFormData :=
  SignUp.mkData (Some (units "alice_1")) (Some (units "hi"))
                (Some (units "Passw0rd!"))
                (Some [mkFile "image/png" 1000]).

Definition shortNameForm : SignUp.SignupFormData :=
  SignUp.mkData (Some (units "al")) None (Some (units "weak")) None.

Definition aliceLogin : Login.LoginFormData :=
  Login.mkData (Some (units "alice_1")) (Some (units "Passw0rd!")).

(** A server that accepts every request, and one that rejects every request
    without a message. *)
Definition acceptingServer {P : Type} (url : string) (body : P)
  : Outcome string := Returned "Welcome !".

Definition rejectingServer {P : Type} (url : string) (body : P)
  : Outcome string := Raised (AxiosError None).

(** A store that counts the actions it has seen, and one whose reducer throws
    on [setAuth]. *)
Definition countingReducer (a : PageAction) (s : nat) : Outcome nat :=
  Returned (S s).

Definition throwingReducer (a : PageAction) (s : nat) : Outcome nat :=
  match a with
  | SetAuth _ => Raised (OtherError "reducer failed")
  | Api _ => Returned (S s)
  end.

Definition signupPage (values : SignUp.SignupFormData)
  : Page nat SignUp.SignupFormData SignUp.Errors SignUp.Body :=
  mkPage 0 values SignUp.noErrors false "/signup" [].

Definition loginPage (values : Login.LoginFormData)
  : Page nat Login.LoginFormData Login.Errors Login.LoginFormData :=
  mkPage 0 values Login.noErrors false "/login" [].

Set Implicit Arguments.

(** ** Further observations on the trace *)

Definition isInvoke (e : Event) : bool :=
  match e with
  | EvInvoke _ => true
  | _ => false
  end.

(** A step that can register a listener: a render while a socket exists. *)
Definition rendersWithSocket (s : Step) : bool :=
  match s with
  | Render (Some _) => true
  | _ => false
  end.

(** A reducer whose [invalidateTags] case throws; the store is a counter of
    the appends it has seen. *)
Definition failingInvalidation (a : Action) (n : nat) : Completion nat :=
  match a with
  | InvalidateTags _ => Throw "invalidation failed"
  | AppendLatestChat _ => Normal (S n)
  end.

(** A reducer that throws on the second append it sees; the store counts the
    appends that went through. *)
Definition failingSecondAppend (a : Action) (n : nat) : Completion nat :=
  match a with
  | InvalidateTags _ => Normal n
  | AppendLatestChat _ =>
      if Nat.eqb n 1 then Throw "append failed" else Normal (S n)
  end.

(** ** Facts about the handler, for every reducer *)

Lemma skipn_length_app (A : Type) (l evs : list A) :
  skipn (List.length l) (l ++ evs) = evs.
Proof. induction l as [|x l IH]; simpl; auto. Qed.

Lemma count_append_events (f : Event -> bool) (cs : list ChatTypes) :
  (forall c, f (appendEvent c) = false) ->
  filter f (map appendEvent cs) = [].
Proof.
  intros Hf. induction cs as [|c cs IH]; simpl; auto.
  rewrite Hf. exact IH.
Qed.

Lemma keep_append_events (f : Event -> bool) (cs : list ChatTypes) :
  (forall c, f (appendEvent c) = true) ->
  filter f (map appendEvent cs) = map appendEvent cs.
Proof.
  intros Hf. induction cs as [|c cs IH]; simpl; auto.
  rewrite Hf, IH. reflexivity.
Qed.

Lemma strictEq_true (id : string) (v : option string) :
  strictEq id v = true <-> v = Some id.
Proof.
  destruct v as [s|]; simpl.
  - rewrite String.eqb_eq. split; intros H; [subst | inversion H]; reflexivity.
  - split; intros H; discriminate H.
Qed.

Lemma matching_In (chats : list ChatTypes) (msg : MessageTypes) (c : ChatTypes) :
  In c (matching chats msg) <-> In c chats /\ chatId msg = Some (_id c).
Proof.
  unfold matching. rewrite filter_In, strictEq_true. tauto.
Qed.

Lemma matching_absent (chats : list ChatTypes) (msg : MessageTypes) :
  (forall cid, chatId msg = Some cid -> ~ In cid (ids chats)) ->
  matching chats msg = [].
Proof.
  intros Habs. destruct (matching chats msg) as [|c l] eqn:E; auto.
  assert (Hin : In c (matching chats msg)) by (rewrite E; left; reflexivity).
  apply matching_In in Hin. destruct Hin as [Hin Hid].
  exfalso. apply (Habs _ Hid). unfold ids. apply in_map. exact Hin.
Qed.

Section HandlerFacts.

Variable AppState : Type.
Variable rootReducer : Action -> AppState -> Completion AppState.

Local Abbreviation handle := (handleRealtimeMessage rootReducer).
Local Abbreviation dispatchAppend :=
  (fun chat : ChatTypes => dispatch rootReducer (appendLatestChat chat)).

Lemma dispatch_cases (a : Action) (r : Runtime AppState) :
  (exists s, rootReducer a (store r) = Normal s
             /\ dispatch rootReducer a r
                = (Normal a, {| store := s; trace := trace r ++ [EvDispatch a] |}))
  \/ (exists e, rootReducer a (store r) = Throw e
                /\ dispatch rootReducer a r
                   = (Throw e, {| store := store r;
                                  trace := trace r ++ [EvDispatch a] |})).
Proof.
  unfold dispatch, emitEvent; simpl.
  destruct (rootReducer a (store r)) as [s|e]; [left | right]; eauto.
Qed.

Lemma arrayMap_cons (A B : Type) (f : A -> JS AppState B) (x : A) (l : list A)
    (r : Runtime AppState) :
  arrayMap f (x :: l) r
  = match f x r with
    | (Normal y, r1) =>
        match arrayMap f l r1 with
        | (Normal ys, r2) => (Normal (y :: ys), r2)
        | (Throw e, r2) => (Throw e, r2)
        end
    | (Throw e, r1) => (Throw e, r1)
    end.
Proof. reflexivity. Qed.

(** The handler with its monadic plumbing unfolded. *)
Lemma handle_unfold (chats : list ChatTypes) (msg : MessageTypes)
    (r : Runtime AppState) :
  handle chats msg r
  = match dispatch rootReducer (invalidateTags ["Chats"]) r with
    | (Normal _, r1) =>
        match arrayMap dispatchAppend (matching chats msg) r1 with
        | (Normal _, r2) => (Normal Pending, r2)
        | (Throw e, r2) =>
            (Normal Fulfilled, emitEvent (EvConsoleError failureLabel e) r2)
        end
    | (Throw e, r1) =>
        (Normal Fulfilled, emitEvent (EvConsoleError failureLabel e) r1)
    end.
Proof.
  unfold handleRealtimeMessage, tryCatch, bind, matching.
  destruct (dispatch rootReducer (invalidateTags ["Chats"]) r) as [[a|e] r1];
    [|reflexivity].
  destruct (arrayMap _ _ r1) as [[acts|e] r2]; reflexivity.
Qed.

(** The appends run left to right; a throw stops them after a prefix. *)
Lemma arrayMap_dispatch_cases (cs : list ChatTypes) (r : Runtime AppState) :
  (exists r', arrayMap dispatchAppend cs r = (Normal (map appendLatestChat cs), r')
              /\ trace r' = trace r ++ map appendEvent cs)
  \/ (exists e r' k, arrayMap dispatchAppend cs r = (Throw e, r')
                     /\ trace r' = trace r ++ map appendEvent (firstn k cs)).
Proof.
  revert r. induction cs as [|c cs IH]; intros r.
  - left. exists r. simpl. rewrite app_nil_r. auto.
  - rewrite arrayMap_cons.
    destruct (dispatch_cases (appendLatestChat c) r) as [(s & _ & E)|(e & _ & E)];
      rewrite E.
    + set (r1 := {| store := s; trace := trace r ++ [EvDispatch (appendLatestChat c)] |}).
      destruct (IH r1) as [(r' & E' & T')|(e & r' & k & E' & T')]; rewrite E'.
      * left. exists r'. split; [reflexivity|].
        rewrite T'. subst r1. simpl. rewrite <- app_assoc. reflexivity.
      * right. exists e, r', (S k). split; [reflexivity|].
        rewrite T'. subst r1. simpl. rewrite <- app_assoc. reflexivity.
    + right. exists e. eexists. exists 1. split; [reflexivity|].
      simpl. reflexivity.
Qed.

(** Every run of the handler has this shape: the invalidation, a prefix of
    the appends for the matching chats, and a [console.error] exactly when
    something threw. *)
Lemma handle_shape (chats : list ChatTypes) (msg : MessageTypes)
    (r : Runtime AppState) :
  exists (k : nat) (log : list Event) (p : Promise) (r' : Runtime AppState),
    handle chats msg r = (Normal p, r')
    /\ trace r' = trace r ++ chatsSignal
                    :: map appendEvent (firstn k (matching chats msg)) ++ log
    /\ ((p = Pending /\ log = [] /\ firstn k (matching chats msg) = matching chats msg)
        \/ (p = Fulfilled /\ exists e, log = [EvConsoleError failureLabel e])).
Proof.
  rewrite handle_unfold.
  destruct (dispatch_cases (invalidateTags ["Chats"]) r)
    as [(s & _ & E)|(e & _ & E)]; rewrite E.
  - set (r1 := {| store := s; trace := trace r ++ [EvDispatch (invalidateTags ["Chats"])] |}).
    destruct (arrayMap_dispatch_cases (matching chats msg) r1)
      as [(r' & E' & T')|(e & r' & k & E' & T')]; rewrite E'.
    + exists (List.length (matching chats msg)), [], Pending, r'.
      split; [reflexivity|].
      rewrite firstn_all, app_nil_r. split.
      * rewrite T'. subst r1. simpl. rewrite <- app_assoc. reflexivity.
      * left. auto.
    + exists k, [EvConsoleError failureLabel e], Fulfilled.
      eexists. split; [reflexivity|]. split.
      * unfold emitEvent. simpl. rewrite T'. subst r1. simpl.
        rewrite <- !app_assoc. reflexivity.
      * right. eauto.
  - exists 0, [EvConsoleError failureLabel e], Fulfilled.
    eexists. split; [reflexivity|]. split.
    + unfold emitEvent. simpl. rewrite <- app_assoc. reflexivity.
    + right. eauto.
Qed.

Lemma handle_events (chats : list ChatTypes) (msg : MessageTypes)
    (r : Runtime AppState) :
  exists (k : nat) (log : list Event) (p : Promise),
    fst (handle chats msg r) = Normal p
    /\ trace (snd (handle chats msg r))
       = trace r ++ eventsSince r (snd (handle chats msg r))
    /\ eventsSince r (snd (handle chats msg r))
       = chatsSignal :: map appendEvent (firstn k (matching chats msg)) ++ log
    /\ ((p = Pending /\ log = [] /\ firstn k (matching chats msg) = matching chats msg)
        \/ (p = Fulfilled /\ exists e, log = [EvConsoleError failureLabel e])).
Proof.
  destruct (handle_shape chats msg r) as (k & log & p & r' & E & T & C).
  exists k, log, p. rewrite E. simpl. unfold eventsSince.
  rewrite T, skipn_length_app. auto.
Qed.

Lemma filter_handler_events (f : Event -> bool) (cs : list ChatTypes)
    (log : list Event) :
  (forall c, f (appendEvent c) = false) ->
  filter f (chatsSignal :: map appendEvent cs ++ log)
  = filter f [chatsSignal] ++ filter f log.
Proof.
  intros Hf. change (chatsSignal :: map appendEvent cs ++ log)
    with ([chatsSignal] ++ map appendEvent cs ++ log).
  rewrite !filter_app, (count_append_events f cs Hf). reflexivity.
Qed.

Lemma handle_signal_count (chats : list ChatTypes) (msg : MessageTypes)
    (r : Runtime AppState) :
  List.length (filter isChatsSignal (eventsSince r (snd (handle chats msg r)))) = 1
  /\ filter isRequest (eventsSince r (snd (handle chats msg r))) = [].
Proof.
  destruct (handle_events chats msg r) as (k & log & p & _ & _ & E & C).
  rewrite E, !filter_handler_events by reflexivity.
  destruct C as [(_ & -> & _)|(_ & e & ->)]; split; reflexivity.
Qed.

(** C2: whatever the envelope and the loaded chats, one call of the handler
    emits exactly one staleness signal for the tag "Chats", and issues no
    network request. *)
Theorem handler_emits_one_chats_signal (chats : list ChatTypes)
    (msg : MessageTypes) (r : Runtime AppState) :
  let r' := snd (handle chats msg r) in
  trace r' = trace r ++ eventsSince r r'
  /\ List.length (filter isChatsSignal (eventsSince r r')) = 1
  /\ filter isRequest (eventsSince r r') = [].
Proof.
  intros r'. subst r'.
  destruct (handle_events chats msg r) as (k & log & p & _ & T & _ & _).
  split; [exact T|]. apply handle_signal_count.
Qed.

Lemma filter_console_dispatches (actions : list Action) :
  filter isConsoleError (map EvDispatch actions) = [].
Proof. induction actions as [|a l IH]; simpl; auto. Qed.

Lemma eventsSince_extended (r : Runtime AppState) (s : AppState)
    (evs : list Event) :
  eventsSince r {| store := s; trace := trace r ++ evs |} = evs.
Proof. unfold eventsSince. simpl. apply skipn_length_app. Qed.

(** When every append goes through, all of them are dispatched, in order. *)
Lemma arrayMap_runs (cs : list ChatTypes) (r : Runtime AppState) (s : AppState) :
  reduceAll rootReducer (map appendLatestChat cs) (store r) = Normal s ->
  arrayMap dispatchAppend cs r
  = (Normal (map appendLatestChat cs),
     {| store := s;
        trace := trace r ++ map EvDispatch (map appendLatestChat cs) |}).
Proof.
  revert r. induction cs as [|c cs IH]; intros r H.
  - simpl in H. inversion H. destruct r as [s0 t0]. simpl.
    rewrite app_nil_r. reflexivity.
  - simpl in H. rewrite arrayMap_cons. unfold dispatch at 1, emitEvent. simpl.
    destruct (rootReducer (appendLatestChat c) (store r)) as [s1|e] eqn:E;
      [|discriminate H].
    rewrite (IH {| store := s1;
                   trace := trace r ++ [EvDispatch (appendLatestChat c)] |} H).
    simpl. rewrite <- app_assoc. reflexivity.
Qed.

(** The append that throws is the last one dispatched. *)
Lemma arrayMap_stops (cs : list ChatTypes) (r : Runtime AppState)
    (pre : list Action) (a : Action) (post : list Action) (s : AppState)
    (e : JsError) :
  map appendLatestChat cs = pre ++ a :: post ->
  reduceAll rootReducer pre (store r) = Normal s ->
  rootReducer a s = Throw e ->
  arrayMap dispatchAppend cs r
  = (Throw e,
     {| store := s; trace := trace r ++ map EvDispatch (pre ++ [a]) |}).
Proof.
  revert r pre. induction cs as [|c cs IH]; intros r pre Hsplit Hpre Ha.
  - destruct pre; discriminate Hsplit.
  - rewrite arrayMap_cons. unfold dispatch at 1, emitEvent. simpl.
    destruct pre as [|x pre]; simpl in Hsplit; inversion Hsplit; subst.
    + simpl in Hpre. inversion Hpre. subst s. rewrite Ha. reflexivity.
    + simpl in Hpre.
      destruct (rootReducer (appendLatestChat c) (store r)) as [s1|e1] eqn:E;
        [|discriminate Hpre].
      rewrite (IH {| store := s1;
                     trace := trace r ++ [EvDispatch (appendLatestChat c)] |}
                  pre H1 Hpre Ha).
      simpl. rewrite <- app_assoc. reflexivity.
Qed.

(** When every planned dispatch goes through, the handler dispatches all of
    them, in order, and reaches its [await]. *)
Lemma handle_runs (chats : list ChatTypes) (msg : MessageTypes)
    (r : Runtime AppState) (s : AppState) :
  reduceAll rootReducer (planned chats msg) (store r) = Normal s ->
  handle chats msg r
  = (Normal Pending,
     {| store := s; trace := trace r ++ map EvDispatch (planned chats msg) |}).
Proof.
  unfold planned. intros H. simpl in H. rewrite handle_unfold.
  unfold dispatch at 1, emitEvent. simpl.
  destruct (rootReducer (invalidateTags ["Chats"]) (store r)) as [s1|e] eqn:E;
    [|discriminate H].
  rewrite (@arrayMap_runs (matching chats msg)
             {| store := s1;
                trace := trace r ++ [EvDispatch (invalidateTags ["Chats"])] |}
             s H).
  simpl. rewrite <- app_assoc. reflexivity.
Qed.

(** The planned dispatch that throws is the last one made: the handler logs
    its error and leaves the store the earlier dispatches built. *)
Lemma handle_stops (chats : list ChatTypes) (msg : MessageTypes)
    (r : Runtime AppState) (pre : list Action) (a : Action)
    (post : list Action) (s : AppState) (e : JsError) :
  planned chats msg = pre ++ a :: post ->
  reduceAll rootReducer pre (store r) = Normal s ->
  rootReducer a s = Throw e ->
  handle chats msg r
  = (Normal Fulfilled,
     {| store := s;
        trace := trace r ++ map EvDispatch (pre ++ [a])
                         ++ [EvConsoleError failureLabel e] |}).
Proof.
  unfold planned. intros Hsplit Hpre Ha. rewrite handle_unfold.
  unfold dispatch at 1, emitEvent. simpl.
  destruct pre as [|x pre]; simpl in Hsplit; inversion Hsplit; subst.
  - simpl in Hpre. inversion Hpre. subst s. rewrite Ha. simpl.
    rewrite <- app_assoc. reflexivity.
  - simpl in Hpre.
    destruct (rootReducer (invalidateTags ["Chats"]) (store r)) as [s1|e1] eqn:E;
      [|discriminate Hpre].
    rewrite (@arrayMap_stops (matching chats msg)
               {| store := s1;
                  trace := trace r ++ [EvDispatch (invalidateTags ["Chats"])] |}
               pre a post s e H1 Hpre Ha).
    unfold emitEvent. simpl. rewrite <- !app_assoc. reflexivity.
Qed.

(** A run of the reducer that throws does so at one action, after the
    actions before it went through. *)
Lemma reduceAll_throws (actions : list Action) (s : AppState) (e : JsError) :
  reduceAll rootReducer actions s = Throw e ->
  exists pre a post s',
    actions = pre ++ a :: post
    /\ reduceAll rootReducer pre s = Normal s'
    /\ rootReducer a s' = Throw e.
Proof.
  revert s. induction actions as [|a l IH]; intros s H; [discriminate H|].
  simpl in H. destruct (rootReducer a s) as [s1|e1] eqn:E.
  - destruct (IH s1 H) as (pre & b & post & s' & Hl & Hpre & Hb).
    exists (a :: pre), b, post, s'. subst l. simpl. rewrite E. auto.
  - inversion H. subst e1. exists [], a, l, s. auto.
Qed.

(** C9: for every envelope, every list of loaded chats and every store, the
    handler returns normally and its promise is never rejected.  When the
    dispatches it plans all go through, it reaches its await and logs
    nothing; when one of them throws, that error, the first thrown, is
    caught and logged with [console.error], once. *)
Theorem handler_never_propagates (chats : list ChatTypes)
    (msg : MessageTypes) (r : Runtime AppState) :
  exists (p : Promise) (r' : Runtime AppState),
    handle chats msg r = (Normal p, r')
    /\ settle p r' = (Normal Fulfilled, r')
    /\ match reduceAll rootReducer (planned chats msg) (store r) with
       | Normal _ =>
           p = Pending /\ filter isConsoleError (eventsSince r r') = []
       | Throw e =>
           p = Fulfilled
           /\ filter isConsoleError (eventsSince r r')
              = [EvConsoleError failureLabel e]
       end.
Proof.
  destruct (reduceAll rootReducer (planned chats msg) (store r)) as [s|e] eqn:H.
  - rewrite (@handle_runs chats msg r s H).
    eexists. eexists. split; [reflexivity|]. split; [reflexivity|].
    rewrite eventsSince_extended. split; [reflexivity|].
    apply filter_console_dispatches.
  - destruct (@reduceAll_throws _ _ e H)
      as (pre & a & post & s' & Hl & Hpre & Ha).
    rewrite (@handle_stops chats msg r pre a post s' e Hl Hpre Ha).
    eexists. eexists. split; [reflexivity|]. split; [reflexivity|].
    rewrite eventsSince_extended. split; [reflexivity|].
    rewrite filter_app, filter_console_dispatches. reflexivity.
Qed.

(** C10: the handler reads nothing of the envelope but [chatId].  Two
    envelopes with the same [chatId] give the same result on the same store,
    whatever their body, sender and timestamp, and every action handed to
    the store is the "Chats" invalidation or [appendLatestChat] of a loaded
    record, passed as it was loaded. *)
Theorem handler_depends_only_on_chatId (chats : list ChatTypes)
    (m1 m2 : MessageTypes) (r : Runtime AppState) :
  chatId m1 = chatId m2 ->
  handle chats m1 r = handle chats m2 r
  /\ forall a, In (EvDispatch a) (eventsSince r (snd (handle chats m1 r))) ->
       a = invalidateTags ["Chats"]
       \/ exists c, In c chats /\ chatId m1 = Some (_id c)
                    /\ a = appendLatestChat c.
Proof.
  intros Hid. split.
  - unfold handleRealtimeMessage. rewrite Hid. reflexivity.
  - intros a Ha.
    destruct (handle_events chats m1 r) as (k & log & p & _ & _ & E & C).
    rewrite E in Ha. simpl in Ha. destruct Ha as [Ha|Ha].
    + left. inversion Ha. reflexivity.
    + apply in_app_or in Ha. destruct Ha as [Ha|Ha].
      * right. apply in_map_iff in Ha. destruct Ha as (c & Hc & Hin).
        inversion Hc; subst a.
        assert (Hm : In c (matching chats m1)).
        { rewrite <- (firstn_skipn k). apply in_or_app. left. exact Hin. }
        apply matching_In in Hm. exists c. tauto.
      * exfalso. destruct C as [(_ & -> & _)|(_ & e & ->)]; simpl in Ha.
        -- exact Ha.
        -- destruct Ha as [Ha|[]]. discriminate Ha.
Qed.

(** With a reducer that does not throw, the handler reaches its [await]
    after the invalidation and one append per matching chat. *)
Lemma arrayMap_dispatch_total (cs : list ChatTypes) (r : Runtime AppState) :
  (forall a s, exists s', rootReducer a s = Normal s') ->
  exists r', arrayMap dispatchAppend cs r = (Normal (map appendLatestChat cs), r')
             /\ trace r' = trace r ++ map appendEvent cs.
Proof.
  intros Htot. revert r. induction cs as [|c cs IH]; intros r.
  - exists r. simpl. rewrite app_nil_r. auto.
  - rewrite arrayMap_cons.
    destruct (dispatch_cases (appendLatestChat c) r) as [(s & _ & E)|(e & E0 & _)].
    + rewrite E.
      destruct (IH {| store := s; trace := trace r ++ [EvDispatch (appendLatestChat c)] |})
        as (r' & E' & T').
      rewrite E'. exists r'. split; [reflexivity|].
      rewrite T'. simpl. rewrite <- app_assoc. reflexivity.
    + destruct (Htot (appendLatestChat c) (store r)) as (s' & Hs).
      rewrite Hs in E0. discriminate E0.
Qed.

Lemma handle_total (chats : list ChatTypes) (msg : MessageTypes)
    (r : Runtime AppState) :
  (forall a s, exists s', rootReducer a s = Normal s') ->
  exists r', handle chats msg r = (Normal Pending, r')
             /\ eventsSince r r' = chatsSignal :: map appendEvent (matching chats msg).
Proof.
  intros Htot. rewrite handle_unfold.
  destruct (dispatch_cases (invalidateTags ["Chats"]) r)
    as [(s & _ & E)|(e & E0 & _)].
  - rewrite E.
    destruct (arrayMap_dispatch_total (matching chats msg)
                {| store := s; trace := trace r ++ [EvDispatch (invalidateTags ["Chats"])] |} Htot)
      as (r' & E' & T').
    rewrite E'. exists r'. split; [reflexivity|].
    unfold eventsSince. rewrite T'. simpl.
    rewrite <- app_assoc, skipn_length_app. reflexivity.
  - destruct (Htot (invalidateTags ["Chats"]) (store r)) as (s' & Hs).
    rewrite Hs in E0. discriminate E0.
Qed.

(** An envelope that matches no loaded chat runs the invalidation alone. *)
Lemma handle_no_match (chats : list ChatTypes) (msg : MessageTypes)
    (r : Runtime AppState) (s' : AppState) :
  matching chats msg = [] ->
  rootReducer (invalidateTags ["Chats"]) (store r) = Normal s' ->
  handle chats msg r
  = (Normal Pending, {| store := s'; trace := trace r ++ [chatsSignal] |}).
Proof.
  intros Hm Hs. rewrite handle_unfold, Hm.
  unfold dispatch, emitEvent. simpl. rewrite Hs. reflexivity.
Qed.

Lemma arrayFilter_cons (A : Type) (f : A -> JS AppState bool) (x : A)
    (l : list A) (r : Runtime AppState) :
  arrayFilter f (x :: l) r
  = match f x r with
    | (Normal keep, r1) =>
        match arrayFilter f l r1 with
        | (Normal kept, r2) => (Normal (if keep then x :: kept else kept), r2)
        | (Throw e, r2) => (Throw e, r2)
        end
    | (Throw e, r1) => (Throw e, r1)
    end.
Proof. reflexivity. Qed.

(** On an envelope object the lookup cannot throw: it is [filter]. *)
Lemma arrayFilter_object (msg : MessageTypes) (l : list ChatTypes)
    (r : Runtime AppState) :
  arrayFilter (fun chat => bind (@readChatId AppState (Some msg))
                                (fun id => ret (strictEq (_id chat) id))) l r
  = (Normal (matching l msg), r).
Proof.
  set (f := fun chat => bind (@readChatId AppState (Some msg))
                             (fun id => ret (strictEq (_id chat) id))).
  induction l as [|c l IH]; [reflexivity|].
  rewrite arrayFilter_cons.
  change (f c r) with (@Normal bool (strictEq (_id c) (chatId msg)), r).
  cbv beta iota. rewrite IH. unfold matching. simpl.
  destruct (strictEq (_id c) (chatId msg)); reflexivity.
Qed.

Lemma payload_object (chats : list ChatTypes) (msg : MessageTypes)
    (r : Runtime AppState) :
  handleRealtimePayload rootReducer chats (Some msg) r = handle chats msg r.
Proof.
  rewrite handle_unfold. unfold handleRealtimePayload, tryCatch.
  unfold bind at 1.
  destruct (dispatch rootReducer (invalidateTags ["Chats"]) r) as [[a|e] r1];
    [|reflexivity].
  unfold bind at 1. rewrite arrayFilter_object.
  unfold bind at 1.
  destruct (arrayMap _ (matching chats msg) r1) as [[acts|e] r2]; reflexivity.
Qed.

(** Without an object as payload, the first loaded chat makes the lookup
    throw: after the invalidation nothing is dispatched, and the [TypeError]
    is logged. *)
Lemma payload_nothing (c : ChatTypes) (chats : list ChatTypes)
    (r : Runtime AppState) (s : AppState) :
  rootReducer (invalidateTags ["Chats"]) (store r) = Normal s ->
  handleRealtimePayload rootReducer (c :: chats) None r
  = (Normal Fulfilled,
     {| store := s;
        trace := trace r ++ [chatsSignal;
                             EvConsoleError failureLabel chatIdOfNothing] |}).
Proof.
  intros H. unfold handleRealtimePayload, tryCatch, bind, dispatch, emitEvent.
  simpl. rewrite H. simpl. unfold consoleError, emitEvent, ret. simpl.
  rewrite <- app_assoc. reflexivity.
Qed.

End HandlerFacts.

(** ** Facts about the socket registrations *)

Lemma removeFirst_none (p : Listener -> bool) (ls : list Listener) :
  (forall l, In l ls -> p l = false) -> removeFirst p ls = ls.
Proof.
  induction ls as [|l ls IH]; simpl; intros H; auto.
  rewrite (H l) by auto. f_equal. apply IH. auto.
Qed.

Lemma removeFirst_In (p : Listener -> bool) (ls : list Listener) (l : Listener) :
  In l (removeFirst p ls) -> In l ls.
Proof.
  induction ls as [|x ls IH]; simpl; auto.
  destruct (p x); simpl; intuition.
Qed.

Lemma removeFirst_handlers_In (p : Listener -> bool) (ls : list Listener) (h : nat) :
  In h (handlers (removeFirst p ls)) -> In h (handlers ls).
Proof.
  unfold handlers. rewrite !in_map_iff. intros (l & E & Hin).
  exists l. split; auto. eapply removeFirst_In; eauto.
Qed.

Lemma removeFirst_NoDup (p : Listener -> bool) (ls : list Listener) :
  NoDup (handlers ls) -> NoDup (handlers (removeFirst p ls)).
Proof.
  induction ls as [|x ls IH]; simpl; intros H; auto.
  inversion H as [|? ? Hx Hls]; subst.
  destruct (p x); auto. simpl. constructor; auto.
  intros Hin. apply Hx. eapply removeFirst_handlers_In; eauto.
Qed.

Lemma sameBinding_true (s : nat) (ev : string) (h : nat) (l : Listener) :
  sameBinding s ev h l = true
  <-> l_socket l = s /\ l_event l = ev /\ l_handler l = h.
Proof.
  unfold sameBinding.
  rewrite !andb_true_iff, !Nat.eqb_eq, String.eqb_eq. tauto.
Qed.

Lemma sameBinding_other (s : nat) (ev : string) (h : nat) (ls : list Listener) :
  ~ In h (handlers ls) ->
  forall l, In l ls -> sameBinding s ev h l = false.
Proof.
  intros Hh l Hin. destruct (sameBinding s ev h l) eqn:E; auto.
  apply sameBinding_true in E. destruct E as (_ & _ & E).
  exfalso. apply Hh. rewrite <- E. unfold handlers. apply in_map. exact Hin.
Qed.

(** Unbinding a closure that is registered once, last, restores the list. *)
Lemma socketOff_socketOn (sock : option nat) (ev : string) (h : nat)
    (chats : list ChatTypes) (ls : list Listener) :
  ~ In h (handlers ls) ->
  socketOff sock ev h (socketOn sock ev h chats ls) = ls.
Proof.
  intros Hh. destruct sock as [s|]; simpl; auto.
  induction ls as [|l ls IH]; simpl.
  - unfold sameBinding. simpl. rewrite !Nat.eqb_refl, String.eqb_refl. reflexivity.
  - rewrite (@sameBinding_other s ev h _ Hh l) by (left; reflexivity).
    f_equal. apply IH. intros Hin. apply Hh. right. exact Hin.
Qed.

(** Unbinding twice is unbinding once. *)
Lemma socketOff_idempotent (sock : option nat) (ev : string) (h : nat)
    (ls : list Listener) :
  NoDup (handlers ls) ->
  socketOff sock ev h (socketOff sock ev h ls) = socketOff sock ev h ls.
Proof.
  intros Hnd. destruct sock as [s|]; simpl; auto.
  induction ls as [|l ls IH]; simpl; auto.
  inversion Hnd as [|? ? Hl Hls]; subst.
  destruct (sameBinding s ev h l) eqn:E.
  - apply removeFirst_none. apply (@sameBinding_other s ev h).
    apply sameBinding_true in E. destruct E as (_ & _ & <-). exact Hl.
  - simpl. rewrite E. f_equal. apply IH. exact Hls.
Qed.

(** Once the cleanup ran, its handler is registered nowhere. *)
Lemma socketOff_detaches (s : nat) (ev : string) (h : nat) (ls : list Listener) :
  NoDup (handlers ls) ->
  (forall l, In l ls -> l_handler l = h -> l_socket l = s /\ l_event l = ev) ->
  ~ In h (handlers (socketOff (Some s) ev h ls)).
Proof.
  simpl. induction ls as [|l ls IH]; simpl; intros Hnd Hreg; auto.
  inversion Hnd as [|? ? Hl Hls]; subst.
  destruct (sameBinding s ev h l) eqn:E.
  - apply sameBinding_true in E. destruct E as (_ & _ & <-). exact Hl.
  - simpl. intros [Hh|Hin].
    + destruct (Hreg l (or_introl eq_refl) Hh) as [Hs He].
      assert (T : sameBinding s ev h l = true)
        by (apply sameBinding_true; auto).
      rewrite T in E. discriminate E.
    + revert Hin. apply IH; auto.
Qed.

(** ** Facts about the effect and the event loop *)

Section MachineFacts.

Variable AppState : Type.
Variable rootReducer : Action -> AppState -> Completion AppState.
Variable selectChats : AppState -> list ChatTypes.

Local Abbreviation World' := (World AppState).

Lemma invoke_frame (msg : MessageTypes) (w : World') (l : Listener) :
  listeners (invoke rootReducer msg w l) = listeners w
  /\ cleanup (invoke rootReducer msg w l) = cleanup w
  /\ nextHandler (invoke rootReducer msg w l) = nextHandler w.
Proof.
  unfold invoke.
  destruct (handleRealtimeMessage _ _ _ _) as [[[| |]|] r']; simpl; auto.
Qed.

Lemma invoke_trace (msg : MessageTypes) (w : World') (l : Listener) :
  exists evs,
    trace (runtime (invoke rootReducer msg w l))
    = trace (runtime w) ++ EvInvoke (l_handler l) :: evs
    /\ forall h, ~ In (EvInvoke h) evs.
Proof.
  unfold invoke.
  destruct (handle_shape rootReducer (l_chats l) msg
              (emitEvent (EvInvoke (l_handler l)) (runtime w)))
    as (k & log & p & r' & E & T & C).
  rewrite E.
  exists (chatsSignal :: map appendEvent (firstn k (matching (l_chats l) msg)) ++ log).
  split.
  - assert (Hr : trace r' = trace (runtime w) ++ EvInvoke (l_handler l)
                   :: chatsSignal
                   :: map appendEvent (firstn k (matching (l_chats l) msg)) ++ log).
    { rewrite T. unfold emitEvent. simpl. rewrite <- app_assoc. reflexivity. }
    destruct p; simpl; exact Hr.
  - intros h [Hin|Hin]; [discriminate Hin|].
    apply in_app_or in Hin. destruct Hin as [Hin|Hin].
    + apply in_map_iff in Hin. destruct Hin as (c & Hc & _). discriminate Hc.
    + destruct C as [(_ & -> & _)|(_ & e & ->)]; simpl in Hin.
      * exact Hin.
      * destruct Hin as [Hin|[]]. discriminate Hin.
Qed.

Lemma fold_invoke_frame (msg : MessageTypes) (ls : list Listener) (w : World') :
  listeners (fold_left (invoke rootReducer msg) ls w) = listeners w
  /\ cleanup (fold_left (invoke rootReducer msg) ls w) = cleanup w
  /\ nextHandler (fold_left (invoke rootReducer msg) ls w) = nextHandler w.
Proof.
  revert w. induction ls as [|l ls IH]; intros w; simpl; auto.
  destruct (IH (invoke rootReducer msg w l)) as (A & B & C).
  destruct (invoke_frame msg w l) as (A' & B' & C').
  rewrite A, B, C. auto.
Qed.

(** The socket calls registered listeners only. *)
Lemma fold_invoke_trace (msg : MessageTypes) (ls : list Listener) (w : World') :
  exists evs,
    trace (runtime (fold_left (invoke rootReducer msg) ls w))
    = trace (runtime w) ++ evs
    /\ forall h, In (EvInvoke h) evs -> In h (handlers ls).
Proof.
  revert w. induction ls as [|l ls IH]; intros w; simpl.
  - exists []. rewrite app_nil_r. split; [reflexivity|]. intros h [].
  - destruct (IH (invoke rootReducer msg w l)) as (evs & T & H).
    destruct (invoke_trace msg w l) as (evs0 & T0 & H0).
    exists ((EvInvoke (l_handler l) :: evs0) ++ evs). split.
    + rewrite T, T0, <- app_assoc. reflexivity.
    + intros h Hin. apply in_app_or in Hin. destruct Hin as [[Hin|Hin]|Hin].
      * left. inversion Hin. reflexivity.
      * exfalso. exact (H0 h Hin).
      * right. exact (H h Hin).
Qed.

Lemma emit_frame (socket : nat) (ev : string) (msg : MessageTypes) (w : World') :
  listeners (emit rootReducer socket ev msg w) = listeners w
  /\ cleanup (emit rootReducer socket ev msg w) = cleanup w
  /\ nextHandler (emit rootReducer socket ev msg w) = nextHandler w.
Proof. unfold emit. apply fold_invoke_frame. Qed.

Lemma emit_trace (socket : nat) (ev : string) (msg : MessageTypes) (w : World') :
  exists evs,
    trace (runtime (emit rootReducer socket ev msg w)) = trace (runtime w) ++ evs
    /\ forall h, In (EvInvoke h) evs -> In h (handlers (listeners w)).
Proof.
  unfold emit.
  destruct (fold_invoke_trace msg (filter (listensTo socket ev) (listeners w)) w)
    as (evs & T & H).
  exists evs. split; auto. intros h Hin.
  specialize (H h Hin). unfold handlers in *.
  apply in_map_iff in H. destruct H as (l & E & Hl).
  apply filter_In in Hl. apply in_map_iff. exists l. tauto.
Qed.

Lemma socketOff_handlers_In (sock : option nat) (ev : string) (h x : nat)
    (ls : list Listener) :
  In x (handlers (socketOff sock ev h ls)) -> In x (handlers ls).
Proof.
  destruct sock as [s|]; simpl; auto. apply removeFirst_handlers_In.
Qed.

Lemma socketOn_handlers_In (sock : option nat) (ev : string) (h x : nat)
    (chats : list ChatTypes) (ls : list Listener) :
  In x (handlers (socketOn sock ev h chats ls)) -> In x (handlers ls) \/ x = h.
Proof.
  destruct sock as [s|]; simpl; auto.
  unfold handlers. rewrite map_app, in_app_iff. simpl. intuition.
Qed.

Lemma commit_listeners_In (socket : option nat) (w : World') (x : nat) :
  In x (handlers (listeners (reactCommit selectChats socket w))) ->
  In x (handlers (listeners w)) \/ x = nextHandler w.
Proof.
  unfold reactCommit, welcomeEffect.
  destruct (cleanup w) as [c|]; simpl; intros H;
    apply socketOn_handlers_In in H; destruct H as [H|H]; auto.
  left. eapply socketOff_handlers_In; eauto.
Qed.

Lemma unmount_listeners_In (w : World') (x : nat) :
  In x (handlers (listeners (reactUnmount w))) -> In x (handlers (listeners w)).
Proof.
  unfold reactUnmount. destruct (cleanup w) as [c|]; simpl; auto.
  apply socketOff_handlers_In.
Qed.

(** One step of the event loop never calls a detached handler and never
    registers it again. *)
Lemma step_detached (h : nat) (w : World') (s : Step) :
  detached h w ->
  detached h (runStep rootReducer selectChats w s)
  /\ exists evs,
       trace (runtime (runStep rootReducer selectChats w s))
       = trace (runtime w) ++ evs
       /\ ~ In (EvInvoke h) evs.
Proof.
  intros [Hlt Hout]. destruct s as [socket msg|socket| |h']; simpl.
  - destruct (emit_frame socket "realtime" msg w) as (L & _ & N).
    destruct (emit_trace socket "realtime" msg w) as (evs & T & H).
    split.
    + unfold detached. rewrite L, N. auto.
    + exists evs. split; auto.
  - split.
    + split.
      * unfold reactCommit, welcomeEffect.
        destruct (cleanup w); simpl; lia.
      * intros Hin. apply commit_listeners_In in Hin.
        destruct Hin as [Hin|Hin]; [auto | lia].
    + exists []. rewrite app_nil_r. split; [|intros []].
      unfold reactCommit, welcomeEffect. destruct (cleanup w); reflexivity.
  - split.
    + split.
      * unfold reactUnmount. destruct (cleanup w); simpl; lia.
      * intros Hin. apply unmount_listeners_In in Hin. auto.
    + exists []. rewrite app_nil_r. split; [|intros []].
      unfold reactUnmount. destruct (cleanup w); reflexivity.
  - split.
    + split; simpl; auto.
    + exists []. rewrite app_nil_r. split; [reflexivity|intros []].
Qed.

Lemma run_cons (s : Step) (steps : list Step) (w : World') :
  run rootReducer selectChats (s :: steps) w
  = run rootReducer selectChats steps (runStep rootReducer selectChats w s).
Proof. reflexivity. Qed.

Lemma run_detached (h : nat) (steps : list Step) (w : World') :
  detached h w ->
  detached h (run rootReducer selectChats steps w)
  /\ exists evs,
       trace (runtime (run rootReducer selectChats steps w))
       = trace (runtime w) ++ evs
       /\ ~ In (EvInvoke h) evs.
Proof.
  revert w. induction steps as [|s steps IH]; intros w Hd.
  - split; auto. exists []. rewrite app_nil_r. split; [reflexivity|intros []].
  - rewrite run_cons.
    destruct (step_detached s Hd) as (Hd' & evs & T & H).
    destruct (IH _ Hd') as (Hd'' & evs' & T' & H').
    split; auto. exists (evs ++ evs'). split.
    + rewrite T', T, <- app_assoc. reflexivity.
    + intros Hin. apply in_app_or in Hin. tauto.
Qed.

(** *** Well-formedness is an invariant of the event loop *)

Lemma socketOff_NoDup (sock : option nat) (ev : string) (h : nat)
    (ls : list Listener) :
  NoDup (handlers ls) -> NoDup (handlers (socketOff sock ev h ls)).
Proof. destruct sock; simpl; auto. apply removeFirst_NoDup. Qed.

Lemma socketOff_below (sock : option nat) (ev : string) (h n : nat)
    (ls : list Listener) :
  Forall (fun x => x < n) (handlers ls) ->
  Forall (fun x => x < n) (handlers (socketOff sock ev h ls)).
Proof.
  rewrite !Forall_forall. intros H x Hin. apply H.
  eapply socketOff_handlers_In; eauto.
Qed.

Lemma socketOn_fresh_NoDup (sock : option nat) (ev : string) (n : nat)
    (chats : list ChatTypes) (ls : list Listener) :
  NoDup (handlers ls) ->
  Forall (fun x => x < n) (handlers ls) ->
  NoDup (handlers (socketOn sock ev n chats ls))
  /\ Forall (fun x => x < S n) (handlers (socketOn sock ev n chats ls)).
Proof.
  intros Hnd Hlt. split.
  - destruct sock as [s|]; simpl; auto.
    unfold handlers. rewrite map_app. simpl.
    apply NoDup_app; [exact Hnd | repeat constructor; intros [] |].
    intros x Hin [Hx|[]]. subst x.
    rewrite Forall_forall in Hlt. specialize (Hlt _ Hin). lia.
  - rewrite Forall_forall in *. intros x Hin.
    apply socketOn_handlers_In in Hin. destruct Hin as [Hin|Hin].
    + specialize (Hlt _ Hin). lia.
    + lia.
Qed.

Lemma initial_wellFormed (s : AppState) : wellFormed (initialWorld s).
Proof. repeat split; constructor. Qed.

Lemma commit_wellFormed (socket : option nat) (w : World') :
  wellFormed w -> wellFormed (reactCommit selectChats socket w).
Proof.
  intros (Hnd & Hlt & Hc).
  set (w0 := match cleanup w with Some c => welcomeCleanup c w | None => w end).
  assert (H0 : NoDup (handlers (listeners w0))
               /\ Forall (fun x => x < nextHandler w) (handlers (listeners w0))
               /\ nextHandler w0 = nextHandler w).
  { subst w0. destruct (cleanup w) as [c|]; simpl; auto.
    repeat split; [apply socketOff_NoDup | apply socketOff_below]; auto. }
  destruct H0 as (Hnd0 & Hlt0 & Hn0).
  unfold reactCommit. fold w0. unfold wellFormed, welcomeEffect. simpl.
  rewrite Hn0.
  destruct (@socketOn_fresh_NoDup socket "realtime" (nextHandler w)
              (selectChats (store (runtime w0))) (listeners w0) Hnd0 Hlt0)
    as (A & B).
  repeat split; auto.
  - destruct socket as [s|]; simpl in H.
    + apply in_app_or in H. destruct H as [H|[H|[]]].
      * exfalso. rewrite Forall_forall in Hlt0.
        assert (l_handler l < nextHandler w)
          by (apply Hlt0; unfold handlers; apply in_map; exact H).
        lia.
      * subst l. reflexivity.
    + exfalso. rewrite Forall_forall in Hlt0.
      assert (l_handler l < nextHandler w)
        by (apply Hlt0; unfold handlers; apply in_map; exact H).
      lia.
  - destruct socket as [s|]; simpl in H.
    + apply in_app_or in H. destruct H as [H|[H|[]]].
      * exfalso. rewrite Forall_forall in Hlt0.
        assert (l_handler l < nextHandler w)
          by (apply Hlt0; unfold handlers; apply in_map; exact H).
        lia.
      * subst l. reflexivity.
    + exfalso. rewrite Forall_forall in Hlt0.
      assert (l_handler l < nextHandler w)
        by (apply Hlt0; unfold handlers; apply in_map; exact H).
      lia.
Qed.

Lemma unmount_wellFormed (w : World') :
  wellFormed w -> wellFormed (reactUnmount w).
Proof.
  intros (Hnd & Hlt & Hc). unfold reactUnmount.
  destruct (cleanup w) as [c|] eqn:E.
  - unfold wellFormed. simpl. repeat split.
    + apply socketOff_NoDup; auto.
    + apply socketOff_below; auto.
  - unfold wellFormed. rewrite E. auto.
Qed.

Lemma step_wellFormed (w : World') (s : Step) :
  wellFormed w -> wellFormed (runStep rootReducer selectChats w s).
Proof.
  intros Hw. destruct s as [socket msg|socket| |h]; simpl.
  - destruct (emit_frame socket "realtime" msg w) as (L & C & N).
    unfold wellFormed. rewrite L, C, N. exact Hw.
  - apply commit_wellFormed; auto.
  - apply unmount_wellFormed; auto.
  - exact Hw.
Qed.

(** Every world the event loop reaches from the start is well formed. *)
Lemma run_wellFormed (steps : list Step) (w : World') :
  wellFormed w -> wellFormed (run rootReducer selectChats steps w).
Proof.
  revert w. induction steps as [|s steps IH]; intros w Hw; auto.
  rewrite run_cons. apply IH. apply step_wellFormed. exact Hw.
Qed.

(** The cleanup detaches the handler it captured. *)
Lemma cleanup_detaches (w : World') (c : Cleanup) :
  wellFormed w -> cleanup w = Some c ->
  detached (c_handler c) (welcomeCleanup c w).
Proof.
  intros (Hnd & Hlt & Hc) E. rewrite E in Hc. destruct Hc as [Hn Hreg].
  split; simpl; auto.
  destruct (c_socket c) as [s|] eqn:Es.
  - apply socketOff_detaches; auto.
    intros l Hin Hh. destruct (Hreg l Hin Hh) as [Hs He].
    inversion Hs. auto.
  - simpl. unfold handlers. intros Hin.
    apply in_map_iff in Hin. destruct Hin as (l & Hh & Hin).
    destruct (Hreg l Hin Hh) as [Hs _]. discriminate Hs.
Qed.

(** *** Binding and unbinding *)

Lemma below_not_In (n : nat) (ls : list Listener) :
  base_le_handler ls n -> ~ In n (handlers ls).
Proof.
  unfold base_le_handler. rewrite Forall_forall.
  intros H Hin. specialize (H _ Hin). lia.
Qed.

Lemma commit_owns (base : list Listener) (socket : option nat) (w : World') :
  ownsAtMostOne base w ->
  ownsAtMostOne base (reactCommit selectChats socket w).
Proof.
  intros [Hlt Hown]. unfold reactCommit.
  assert (H0 : listeners (match cleanup w with
                          | Some c => welcomeCleanup c w
                          | None => w
                          end) = base
               /\ nextHandler (match cleanup w with
                               | Some c => welcomeCleanup c w
                               | None => w
                               end) = nextHandler w).
  { destruct (cleanup w) as [c|]; simpl; auto.
    destruct Hown as (Hb & chats & ->). split; auto.
    apply socketOff_socketOn. apply below_not_In. exact Hb. }
  destruct H0 as [HL HN].
  unfold ownsAtMostOne, welcomeEffect. simpl. rewrite HL, HN. split.
  - rewrite Forall_forall in *. intros x Hx. specialize (Hlt x Hx). lia.
  - split; [exact Hlt | eauto].
Qed.

Lemma commits_own (base : list Listener) (renders : list (option nat))
    (w : World') :
  ownsAtMostOne base w ->
  ownsAtMostOne base
    (fold_left (fun w socket => reactCommit selectChats socket w) renders w).
Proof.
  revert w. induction renders as [|s renders IH]; intros w H; simpl; auto.
  apply IH. apply commit_owns. exact H.
Qed.

Lemma unmount_owns (base : list Listener) (w : World') :
  ownsAtMostOne base w -> listeners (reactUnmount w) = base.
Proof.
  intros [Hlt Hown]. unfold reactUnmount.
  destruct (cleanup w) as [c|]; simpl; auto.
  destruct Hown as (Hb & chats & ->).
  apply socketOff_socketOn. apply below_not_In. exact Hb.
Qed.

Lemma owns_length (base : list Listener) (w : World') :
  ownsAtMostOne base w ->
  List.length (listeners w) <= S (List.length base).
Proof.
  intros [_ Hown]. destruct (cleanup w) as [c|].
  - destruct Hown as (_ & chats & ->).
    destruct (c_socket c); simpl; [rewrite length_app; simpl|]; lia.
  - rewrite Hown. lia.
Qed.

(** C4: binding twice in succession and unbinding once leaves none of the
    view's bindings: of the listeners on "realtime" only those that were
    there before the view mounted remain, none when there was none.  A
    re-bind runs the previous cleanup first, so after any number of renders
    the view has at most one handler registered. *)
Theorem resubscription_leaves_no_binding (w : World') (s1 s2 : option nat) :
  wellFormed w -> cleanup w = None ->
  listeners (reactUnmount (reactCommit selectChats s2
                             (reactCommit selectChats s1 w)))
  = listeners w
  /\ forall renders : list (option nat),
       let w' := fold_left (fun w socket => reactCommit selectChats socket w)
                           renders w in
       List.length (listeners w') <= S (List.length (listeners w))
       /\ listeners (reactUnmount w') = listeners w.
Proof.
  intros (_ & Hlt & _) Hc.
  assert (H : ownsAtMostOne (listeners w) w).
  { split; auto. rewrite Hc. reflexivity. }
  split.
  - apply unmount_owns. apply (commits_own [s1; s2]). exact H.
  - intros renders w'. subst w'. split.
    + apply owns_length. apply commits_own. exact H.
    + apply unmount_owns. apply commits_own. exact H.
Qed.

(** C7: once the cleanup ran, at teardown or before a re-bind, the handler
    it detached is called for no further envelope, whatever is delivered
    afterwards and however the view renders; running the cleanup again
    changes nothing, and it commutes with a handler that is suspended at
    its await, which resumes without touching store or trace. *)
Theorem unbound_handler_processes_nothing (w : World') (c : Cleanup)
    (steps : list Step) :
  wellFormed w -> cleanup w = Some c ->
  (forall w1, w1 = reactUnmount w \/ (exists s, w1 = reactCommit selectChats s w) ->
     ~ In (EvInvoke (c_handler c))
          (eventsSince (runtime w1)
                       (runtime (run rootReducer selectChats steps w1))))
  /\ reactUnmount (reactUnmount w) = reactUnmount w
  /\ welcomeCleanup c (welcomeCleanup c w) = welcomeCleanup c w
  /\ forall h, resume h (welcomeCleanup c w) = welcomeCleanup c (resume h w)
               /\ runtime (resume h (reactUnmount w)) = runtime (reactUnmount w).
Proof.
  intros Hw Hc.
  pose proof (cleanup_detaches Hw Hc) as [Hn Hout]. simpl in Hn, Hout.
  split; [|split; [|split]].
  - intros w1 Hw1.
    assert (Hd : detached (c_handler c) w1).
    { destruct Hw1 as [->|(s & ->)].
      - unfold reactUnmount. rewrite Hc. split; simpl; auto.
      - unfold reactCommit, welcomeEffect. rewrite Hc. split; simpl; [lia|].
        intros Hin. apply socketOn_handlers_In in Hin.
        destruct Hin as [Hin|Hin]; [auto | lia]. }
    destruct (run_detached steps Hd) as (_ & evs & T & H).
    unfold eventsSince. rewrite T, skipn_length_app. exact H.
  - unfold reactUnmount. rewrite Hc. reflexivity.
  - unfold welcomeCleanup. simpl. f_equal.
    apply socketOff_idempotent. apply Hw.
  - intros h. split.
    + reflexivity.
    + reflexivity.
Qed.

(** C3: an envelope whose [chatId] is not among the loaded chats leaves the
    chat records of the store as they were and raises no error (the handler
    reaches its await and logs nothing), and the one staleness signal for
    "Chats" is still emitted.  The invalidation itself is assumed not to
    touch the chat records: it only marks the tag stale. *)
Theorem unknown_chat_leaves_store_unchanged (chats : list ChatTypes)
    (msg : MessageTypes) (r : Runtime AppState) :
  (forall cid, chatId msg = Some cid -> ~ In cid (ids chats)) ->
  (forall s, exists s', rootReducer (invalidateTags ["Chats"]) s = Normal s'
                        /\ selectChats s' = selectChats s) ->
  exists r',
    handleRealtimeMessage rootReducer chats msg r = (Normal Pending, r')
    /\ selectChats (store r') = selectChats (store r)
    /\ eventsSince r r' = [chatsSignal].
Proof.
  intros Habs Hinv.
  destruct (Hinv (store r)) as (s' & Hs & Hsel).
  eexists. split.
  - apply handle_no_match; [apply matching_absent; exact Habs | exact Hs].
  - simpl. split; [exact Hsel|].
    unfold eventsSince. simpl. apply skipn_length_app.
Qed.

(** C6, as the code has it: the handler validates nothing.  An envelope
    without a body is handled exactly as the same envelope with one; an
    envelope without [chatId] matches no loaded chat, so no append is
    dispatched while the "Chats" signal is still emitted once; for an
    envelope object nothing is logged as long as the dispatches go through,
    whatever field it lacks; and delivering an envelope leaves the
    registrations on the socket and the cleanup as they were.  Only a payload
    that is no object at all makes the handler log without a dispatch
    throwing: with a chat loaded, reading [msg.chatId] throws inside the
    [try], after the invalidation and before any append. *)
Theorem malformed_envelope_is_not_validated (w : World') (socket : nat)
    (msg : MessageTypes) :
  emit rootReducer socket "realtime"
       (mkMessage (chatId msg) None (senderId msg) (createdAt msg)) w
  = emit rootReducer socket "realtime" msg w
  /\ listeners (emit rootReducer socket "realtime" msg w) = listeners w
  /\ cleanup (emit rootReducer socket "realtime" msg w) = cleanup w
  /\ (forall chats r,
        chatId msg = None ->
        let evs := eventsSince r (snd (handleRealtimeMessage rootReducer chats msg r)) in
        filter isAppend evs = []
        /\ List.length (filter isChatsSignal evs) = 1)
  /\ (forall chats r,
        (forall a s, exists s', rootReducer a s = Normal s') ->
        let evs := eventsSince r (snd (handleRealtimeMessage rootReducer chats msg r)) in
        filter isConsoleError evs = []
        /\ filter isAppend evs = map appendEvent (matching chats msg))
  /\ (forall chats r,
        handleRealtimePayload rootReducer chats (Some msg) r
        = handleRealtimeMessage rootReducer chats msg r)
  /\ (forall c chats r s,
        rootReducer (invalidateTags ["Chats"]) (store r) = Normal s ->
        handleRealtimePayload rootReducer (c :: chats) None r
        = (Normal Fulfilled,
           {| store := s;
              trace := trace r ++ [chatsSignal;
                                   EvConsoleError failureLabel chatIdOfNothing] |})).
Proof.
  split; [|split; [|split; [|split; [|split; [|split]]]]].
  - reflexivity.
  - apply emit_frame.
  - apply emit_frame.
  - intros chats r Hid evs. subst evs.
    split; [|apply handle_signal_count].
    destruct (handle_events rootReducer chats msg r) as (k & log & p & _ & _ & E & C).
    rewrite E.
    assert (Hm : matching chats msg = []).
    { apply matching_absent. intros cid H. rewrite Hid in H. discriminate H. }
    rewrite Hm, firstn_nil. simpl.
    destruct C as [(_ & -> & _)|(_ & e & ->)]; reflexivity.
  - intros chats r Htot evs. subst evs.
    destruct (@handle_total _ rootReducer chats msg r Htot) as (r' & E & T).
    rewrite E. simpl. rewrite T. simpl.
    rewrite (count_append_events isConsoleError) by reflexivity.
    split; [reflexivity|].
    apply keep_append_events. reflexivity.
  - intros chats r. apply payload_object.
  - intros c chats r s H. apply payload_nothing. exact H.
Qed.

End MachineFacts.

(** ** The handler over the store the spec describes *)

Unset Implicit Arguments.

Lemma filter_all (A : Type) (f : A -> bool) (l : list A) :
  (forall x, In x l -> f x = true) -> filter f l = l.
Proof.
  induction l as [|x l IH]; simpl; intros H; auto.
  rewrite (H x) by auto. f_equal. apply IH. auto.
Qed.

Lemma filter_idem (A : Type) (f : A -> bool) (l : list A) :
  filter f (filter f l) = filter f l.
Proof.
  apply filter_all. intros x Hx. apply filter_In in Hx. tauto.
Qed.

Lemma otherThan_false (cid : string) (c : ChatTypes) :
  _id c = cid -> otherThan cid c = false.
Proof. intros <-. unfold otherThan. rewrite String.eqb_refl. reflexivity. Qed.

Lemma otherThan_true (cid : string) (c : ChatTypes) :
  _id c <> cid -> otherThan cid c = true.
Proof.
  intros H. unfold otherThan. apply negb_true_iff, String.eqb_neq. exact H.
Qed.

Lemma ids_filter_In (f : ChatTypes -> bool) (chats : list ChatTypes) (x : string) :
  In x (ids (filter f chats)) -> In x (ids chats).
Proof.
  unfold ids. rewrite !in_map_iff. intros (c & E & Hin).
  apply filter_In in Hin. exists c. tauto.
Qed.

Lemma ids_filter_NoDup (f : ChatTypes -> bool) (chats : list ChatTypes) :
  NoDup (ids chats) -> NoDup (ids (filter f chats)).
Proof.
  induction chats as [|c chats IH]; simpl; intros H; auto.
  inversion H as [|? ? Hc Hrest]; subst.
  destruct (f c); simpl; auto. constructor; auto.
  intros Hin. apply Hc. eapply ids_filter_In; eauto.
Qed.

(** [updateChatSummary] keeps one record per identifier and drops no
    identifier. *)
Lemma update_NoDup (c : ChatTypes) (chats : list ChatTypes) :
  NoDup (ids chats) -> NoDup (ids (updateChatSummary c chats)).
Proof.
  intros H. unfold updateChatSummary. simpl. constructor.
  - unfold ids. rewrite in_map_iff. intros (x & E & Hin).
    apply filter_In in Hin. destruct Hin as [_ Hf].
    apply negb_true_iff, String.eqb_neq in Hf. auto.
  - apply ids_filter_NoDup. exact H.
Qed.

Lemma update_keeps_ids (c : ChatTypes) (chats : list ChatTypes) (x : string) :
  In x (ids chats) -> In x (ids (updateChatSummary c chats)).
Proof.
  unfold updateChatSummary, ids. simpl. rewrite !in_map_iff.
  intros (y & E & Hin).
  destruct (string_dec (_id y) (_id c)) as [Heq|Hne].
  - left. congruence.
  - right. exists y. split; auto. apply filter_In. split; auto.
    apply negb_true_iff, String.eqb_neq. exact Hne.
Qed.

Lemma applyAppends_invariant (cs chats : list ChatTypes) :
  NoDup (ids chats) ->
  NoDup (ids (applyAppends cs chats))
  /\ forall x, In x (ids chats) -> In x (ids (applyAppends cs chats)).
Proof.
  revert chats. induction cs as [|c cs IH]; intros chats H; simpl; auto.
  destruct (IH (updateChatSummary c chats) (update_NoDup c chats H)) as [A B].
  split; auto. intros x Hx. apply B. apply update_keeps_ids. exact Hx.
Qed.

(** Appending records that all carry [cid] leaves one of them in front of the
    other chats, which keep their order. *)
Lemma applyAppends_same_id (cid : string) (cs : list ChatTypes) (c0 : ChatTypes)
    (chats : list ChatTypes) :
  (forall c, In c (c0 :: cs) -> _id c = cid) ->
  exists c, In c (c0 :: cs)
            /\ applyAppends (c0 :: cs) chats = c :: filter (otherThan cid) chats.
Proof.
  revert c0 chats. induction cs as [|c1 cs IH]; intros c0 chats Hid.
  - exists c0. split; [left; reflexivity|].
    simpl. unfold updateChatSummary, otherThan.
    rewrite (Hid c0) by (left; reflexivity). reflexivity.
  - destruct (IH c1 (updateChatSummary c0 chats)) as (c & Hin & E).
    { intros c Hc. apply Hid. right. exact Hc. }
    exists c. split; [right; exact Hin|].
    change (applyAppends (c0 :: c1 :: cs) chats)
      with (applyAppends (c1 :: cs) (updateChatSummary c0 chats)).
    rewrite E. f_equal. unfold updateChatSummary. simpl.
    rewrite (@otherThan_false cid c0 (Hid c0 (or_introl eq_refl))).
    assert (Hsame : filter (fun x => negb (String.eqb (_id x) (_id c0))) chats
                    = filter (otherThan cid) chats).
    { unfold otherThan. rewrite (Hid c0) by (left; reflexivity). reflexivity. }
    rewrite Hsame. apply filter_idem.
Qed.

(** Under one record per identifier, the lookup finds the record itself. *)
Lemma matching_unique (chats : list ChatTypes) (msg : MessageTypes) (c : ChatTypes) :
  NoDup (ids chats) -> In c chats -> chatId msg = Some (_id c) ->
  matching chats msg = [c]
  /\ Permutation (c :: filter (otherThan (_id c)) chats) chats.
Proof.
  intros Hnd Hin Hid. unfold matching. rewrite Hid. simpl.
  induction chats as [|x chats IH]; [destruct Hin|].
  inversion Hnd as [|? ? Hx Hrest]; subst.
  assert (Hnone : _id x = _id c -> forall y, In y chats -> _id y <> _id c).
  { intros E y Hy Ey. apply Hx. rewrite E, <- Ey. unfold ids. apply in_map. exact Hy. }
  simpl. destruct (string_dec (_id x) (_id c)) as [E|E].
  - assert (x = c).
    { destruct Hin as [H|H]; auto. exfalso. exact (Hnone E c H eq_refl). }
    subst x. rewrite String.eqb_refl, (@otherThan_false (_id c) c eq_refl).
    assert (F1 : filter (fun chat => String.eqb (_id chat) (_id c)) chats = []).
    { destruct (filter _ chats) as [|y l] eqn:F; auto.
      assert (Hy : In y (filter (fun chat => String.eqb (_id chat) (_id c)) chats))
        by (rewrite F; left; reflexivity).
      apply filter_In in Hy. destruct Hy as [Hy Ey].
      apply String.eqb_eq in Ey. exfalso. exact (Hnone E y Hy Ey). }
    assert (F2 : filter (otherThan (_id c)) chats = chats).
    { apply filter_all. intros y Hy. apply otherThan_true. exact (Hnone E y Hy). }
    rewrite F1, F2. split; auto.
  - assert (Hc : In c chats).
    { destruct Hin as [H|H]; auto. subst x. exfalso. apply E. reflexivity. }
    destruct (IH Hrest Hc) as (M & P).
    rewrite (@otherThan_true (_id c) x E).
    apply String.eqb_neq in E. rewrite E.
    split; auto.
    apply perm_trans with (x :: c :: filter (otherThan (_id c)) chats).
    + apply perm_swap.
    + apply perm_skip. exact P.
Qed.

Lemma spec_arrayMap (cs : list ChatTypes) (r : Runtime SpecState) :
  arrayMap (fun chat => dispatch specReducer (appendLatestChat chat)) cs r
  = (Normal (map appendLatestChat cs),
     {| store := {| summaries := applyAppends cs (summaries (store r));
                    staleTags := staleTags (store r) |};
        trace := trace r ++ map appendEvent cs |}).
Proof.
  revert r. induction cs as [|c cs IH]; intros r.
  - destruct r as [[sm st] tr]. simpl. rewrite app_nil_r. reflexivity.
  - rewrite arrayMap_cons. unfold dispatch at 1. simpl.
    rewrite IH. simpl. rewrite <- app_assoc. reflexivity.
Qed.

(** The handler over the spec's store, in closed form. *)
Lemma spec_handle (chats : list ChatTypes) (msg : MessageTypes)
    (r : Runtime SpecState) :
  handleRealtimeMessage specReducer chats msg r
  = (Normal Pending,
     {| store := {| summaries := applyAppends (matching chats msg)
                                              (summaries (store r));
                    staleTags := markStale ["Chats"] (staleTags (store r)) |};
        trace := trace r ++ chatsSignal :: map appendEvent (matching chats msg) |}).
Proof.
  rewrite handle_unfold. unfold dispatch at 1. simpl.
  rewrite spec_arrayMap. simpl. rewrite <- app_assoc. reflexivity.
Qed.

Lemma spec_invoke_chats (msg : MessageTypes) (w : World SpecState) (l : Listener) :
  chatsOf (invoke specReducer msg w l)
  = applyAppends (matching (l_chats l) msg) (chatsOf w).
Proof. unfold invoke, chatsOf. rewrite spec_handle. reflexivity. Qed.

Lemma spec_fold_invoke_invariant (msg : MessageTypes) (ls : list Listener)
    (w : World SpecState) :
  NoDup (ids (chatsOf w)) ->
  NoDup (ids (chatsOf (fold_left (invoke specReducer msg) ls w)))
  /\ forall x, In x (ids (chatsOf w)) ->
               In x (ids (chatsOf (fold_left (invoke specReducer msg) ls w))).
Proof.
  revert w. induction ls as [|l ls IH]; intros w H; simpl; auto.
  destruct (applyAppends_invariant (matching (l_chats l) msg) _ H) as [A B].
  rewrite <- spec_invoke_chats in A, B.
  destruct (IH _ A) as [A' B']. split; auto.
Qed.

Lemma spec_step_invariant (w : World SpecState) (s : Step) :
  NoDup (ids (chatsOf w)) ->
  NoDup (ids (chatsOf (runStep specReducer summaries w s)))
  /\ forall x, In x (ids (chatsOf w)) ->
               In x (ids (chatsOf (runStep specReducer summaries w s))).
Proof.
  intros H. destruct s as [socket msg|socket| |h]; simpl.
  - unfold emit. apply spec_fold_invoke_invariant. exact H.
  - unfold reactCommit, welcomeEffect, chatsOf.
    destruct (cleanup w); simpl; auto.
  - unfold reactUnmount, chatsOf. destruct (cleanup w); simpl; auto.
  - unfold chatsOf. simpl. auto.
Qed.

Lemma spec_run_invariant (steps : list Step) (w : World SpecState) :
  NoDup (ids (chatsOf w)) ->
  NoDup (ids (chatsOf (run specReducer summaries steps w)))
  /\ forall x, In x (ids (chatsOf w)) ->
               In x (ids (chatsOf (run specReducer summaries steps w))).
Proof.
  revert w. induction steps as [|s steps IH]; intros w H; auto.
  rewrite run_cons.
  destruct (spec_step_invariant w s H) as [A B].
  destruct (IH _ A) as [A' B']. split; auto.
Qed.

(** C1, as the code has it: for an envelope whose [chatId] matches a loaded
    record, the handler emits the "Chats" signal and dispatches
    [appendLatestChat] with that record as it was loaded.  The record takes
    the most recent position with its stored text and timestamp, not the
    envelope's, and the store holds the same records as before, none removed
    or duplicated. *)
Theorem matching_record_is_appended_as_loaded (r : Runtime SpecState)
    (msg : MessageTypes) (c : ChatTypes) :
  NoDup (ids (summaries (store r))) ->
  In c (summaries (store r)) ->
  chatId msg = Some (_id c) ->
  let r' := snd (handleRealtimeMessage specReducer (summaries (store r)) msg r) in
  eventsSince r r' = [chatsSignal; appendEvent c]
  /\ hd_error (summaries (store r')) = Some c
  /\ Permutation (summaries (store r')) (summaries (store r))
  /\ NoDup (ids (summaries (store r'))).
Proof.
  intros Hnd Hin Hid r'. subst r'. rewrite spec_handle.
  destruct (matching_unique _ msg c Hnd Hin Hid) as [M P].
  rewrite M. simpl. repeat split.
  - unfold eventsSince. simpl. apply skipn_length_app.
  - exact P.
  - apply update_NoDup. exact Hnd.
Qed.

(** C5: from a store with one record per identifier in which [cid] is
    loaded, whatever envelopes are delivered (in particular N envelopes that
    all reference [cid]) and however the view re-renders in between, the
    store holds exactly one record with identifier [cid], and one record per
    identifier throughout. *)
Theorem one_record_per_chat_is_preserved (w : World SpecState)
    (steps : list Step) (cid : string) :
  NoDup (ids (chatsOf w)) ->
  In cid (ids (chatsOf w)) ->
  count_occ string_dec (ids (chatsOf (run specReducer summaries steps w))) cid = 1
  /\ NoDup (ids (chatsOf (run specReducer summaries steps w))).
Proof.
  intros Hnd Hin.
  destruct (spec_run_invariant steps w Hnd) as [A B].
  split; auto.
  apply (proj1 (NoDup_count_occ' string_dec _) A). apply B. exact Hin.
Qed.

(** C8: after the handler processed an envelope for a loaded chat [cid], the
    record of [cid] is first in the store, followed by all other chats in the
    order they had before. *)
Theorem loaded_chat_moves_to_front (r : Runtime SpecState) (msg : MessageTypes)
    (cid : string) :
  chatId msg = Some cid ->
  In cid (ids (summaries (store r))) ->
  let r' := snd (handleRealtimeMessage specReducer (summaries (store r)) msg r) in
  exists c,
    In c (summaries (store r)) /\ _id c = cid
    /\ summaries (store r') = c :: filter (otherThan cid) (summaries (store r)).
Proof.
  intros Hid Hin r'. subst r'. rewrite spec_handle. simpl.
  assert (Hall : forall c, In c (matching (summaries (store r)) msg) ->
                           In c (summaries (store r)) /\ _id c = cid).
  { intros c Hc. apply matching_In in Hc. destruct Hc as [Hc E].
    rewrite Hid in E. inversion E. auto. }
  destruct (matching (summaries (store r)) msg) as [|c0 cs] eqn:M.
  - exfalso. unfold ids in Hin. apply in_map_iff in Hin.
    destruct Hin as (c & E & Hc).
    assert (Hm : In c (matching (summaries (store r)) msg)).
    { apply matching_In. split; auto. rewrite Hid, E. reflexivity. }
    rewrite M in Hm. exact Hm.
  - destruct (applyAppends_same_id cid cs c0 (summaries (store r))) as (c & Hc & E).
    { intros c Hc. apply Hall. exact Hc. }
    exists c. destruct (Hall c Hc) as [A B]. auto.
Qed.

(** ** The scenario of the spec, run on the code *)

Lemma scenario_ids_NoDup : NoDup (ids (summaries scenarioStore)).
Proof.
  repeat constructor; simpl; intros H;
    repeat (destruct H as [H|H]; [discriminate H|]); exact H.
Defined.

Lemma mountedWorld_wellFormed : wellFormed mountedWorld.
Proof. apply run_wellFormed, initial_wellFormed. Defined.

(** The envelope [{chatId: "A", text: "hi", ts: 10}] moves chat A to the front
    with its stored text and its timestamp 1: no record carries "hi". *)
Lemma envelope_content_is_not_merged : ~ mergesEnvelopeContent.
Proof.
  intros H.
  destruct (H scenarioRuntime envelopeA chatA "hi")
    as (c' & Hin & _ & Htext & _).
  - exact scenario_ids_NoDup.
  - simpl. auto.
  - reflexivity.
  - reflexivity.
  - vm_compute in Hin. destruct Hin as [<-|[<-|[]]]; discriminate Htext.
Qed.

(** An envelope for chat A that has no body is reconciled like any other:
    the append is dispatched and nothing is logged. *)
Lemma bodyless_envelope_is_reconciled : ~ rejectsMalformedEnvelopes.
Proof.
  intros H.
  destruct (H [chatB; chatA] envelopeNoBody scenarioRuntime) as [Hlog _].
  - right. reflexivity.
  - vm_compute in Hlog. discriminate Hlog.
Qed.

Lemma matching_record_is_appended_as_loaded_witness :
  let r' := snd (handleRealtimeMessage specReducer [chatB; chatA] envelopeA
                   scenarioRuntime) in
  eventsSince scenarioRuntime r' = [chatsSignal; appendEvent chatA]
  /\ hd_error (summaries (store r')) = Some chatA
  /\ Permutation (summaries (store r')) [chatB; chatA]
  /\ NoDup (ids (summaries (store r'))).
Proof.
  apply (matching_record_is_appended_as_loaded scenarioRuntime envelopeA chatA).
  - exact scenario_ids_NoDup.
  - simpl. auto.
  - reflexivity.
Defined.

Lemma unknown_chat_leaves_store_unchanged_witness :
  exists r',
    handleRealtimeMessage specReducer [chatB; chatA] envelopeZ scenarioRuntime
    = (Normal Pending, r')
    /\ summaries (store r') = [chatB; chatA]
    /\ eventsSince scenarioRuntime r' = [chatsSignal].
Proof.
  apply (unknown_chat_leaves_store_unchanged specReducer summaries
           [chatB; chatA] envelopeZ scenarioRuntime).
  - intros cid H. inversion H. simpl. intros Hin.
    repeat (destruct Hin as [Hin|Hin]; [discriminate Hin|]). exact Hin.
  - intros s. eexists. split; reflexivity.
Defined.

Lemma resubscription_leaves_no_binding_witness :
  listeners (reactUnmount (reactCommit summaries (Some 0)
               (reactCommit summaries (Some 0) (initialWorld scenarioStore))))
  = [].
Proof.
  apply (@resubscription_leaves_no_binding SpecState summaries
           (initialWorld scenarioStore) (Some 0) (Some 0)).
  - apply initial_wellFormed.
  - reflexivity.
Defined.

Lemma one_record_per_chat_is_preserved_witness :
  count_occ string_dec
    (ids (chatsOf (run specReducer summaries
                     [Deliver 0 envelopeA; Deliver 0 envelopeA';
                      Render (Some 0); Deliver 0 envelopeA]
                     mountedWorld))) "A" = 1.
Proof.
  apply (one_record_per_chat_is_preserved mountedWorld
           [Deliver 0 envelopeA; Deliver 0 envelopeA';
            Render (Some 0); Deliver 0 envelopeA] "A").
  - exact scenario_ids_NoDup.
  - simpl. auto.
Defined.

Lemma malformed_envelope_is_not_validated_witness :
  filter isAppend
    (eventsSince scenarioRuntime
       (snd (handleRealtimeMessage specReducer [chatB; chatA] envelopeNoChat
               scenarioRuntime))) = []
  /\ filter isAppend
       (eventsSince scenarioRuntime
          (snd (handleRealtimeMessage specReducer [chatB; chatA] envelopeNoBody
                  scenarioRuntime))) = [appendEvent chatA]
  /\ filter isConsoleError
       (trace (snd (handleRealtimePayload specReducer [chatB; chatA] None
                      scenarioRuntime)))
     = [EvConsoleError failureLabel chatIdOfNothing].
Proof.
  split; [|split].
  - destruct (malformed_envelope_is_not_validated specReducer mountedWorld 0
                envelopeNoChat) as (_ & _ & _ & H & _).
    exact (proj1 (H [chatB; chatA] scenarioRuntime eq_refl)).
  - destruct (malformed_envelope_is_not_validated specReducer mountedWorld 0
                envelopeNoBody) as (_ & _ & _ & _ & H & _).
    refine (proj2 (H [chatB; chatA] scenarioRuntime _)).
    intros a s. destruct a; eexists; reflexivity.
  - destruct (malformed_envelope_is_not_validated specReducer mountedWorld 0
                envelopeNoBody) as (_ & _ & _ & _ & _ & _ & H).
    rewrite (H chatB [chatA] scenarioRuntime _ eq_refl). reflexivity.
Defined.

Lemma unbound_handler_processes_nothing_witness :
  ~ In (EvInvoke 0)
       (eventsSince (runtime (reactUnmount mountedWorld))
          (runtime (run specReducer summaries
                      [Deliver 0 envelopeA; Resume 0; Deliver 0 envelopeZ]
                      (reactUnmount mountedWorld)))).
Proof.
  apply (@unbound_handler_processes_nothing SpecState specReducer summaries
           mountedWorld (mkCleanup (Some 0) 0)
           [Deliver 0 envelopeA; Resume 0; Deliver 0 envelopeZ]).
  - exact mountedWorld_wellFormed.
  - reflexivity.
  - left. reflexivity.
Defined.

Lemma loaded_chat_moves_to_front_witness :
  exists c,
    In c [chatB; chatA] /\ _id c = "A"
    /\ summaries (store (snd (handleRealtimeMessage specReducer [chatB; chatA]
                                envelopeA scenarioRuntime)))
       = c :: filter (otherThan "A") [chatB; chatA].
Proof.
  apply (loaded_chat_moves_to_front scenarioRuntime envelopeA "A").
  - reflexivity.
  - simpl. auto.
Defined.

Lemma handler_depends_only_on_chatId_witness :
  handleRealtimeMessage specReducer [chatB; chatA] envelopeA scenarioRuntime
  = handleRealtimeMessage specReducer [chatB; chatA] envelopeA' scenarioRuntime.
Proof.
  apply (handler_depends_only_on_chatId specReducer [chatB; chatA]
           envelopeA envelopeA' scenarioRuntime).
  reflexivity.
Defined.

(** ** Further facts about the Welcome view *)

Section WelcomeExtras.

Variable AppState : Type.
Variable rootReducer : Action -> AppState -> Completion AppState.
Variable selectChats : AppState -> list ChatTypes.

(** X1: When dispatching the invalidation throws, the handler dispatches no
    append: the store is left as it was, the error is logged once and the
    promise is fulfilled. *)
Theorem invalidation_failure_skips_appends (chats : list ChatTypes)
    (msg : MessageTypes) (r : Runtime AppState) (e : JsError) :
  rootReducer (invalidateTags ["Chats"]) (store r) = Throw e ->
  handleRealtimeMessage rootReducer chats msg r
  = (Normal Fulfilled,
     {| store := store r;
        trace := trace r ++ [chatsSignal; EvConsoleError failureLabel e] |}).
Proof.
  intros He. rewrite handle_unfold.
  unfold dispatch, emitEvent. simpl. rewrite He. simpl.
  rewrite <- app_assoc. reflexivity.
Qed.

(** X2: The handler dispatches what it plans, the invalidation and then one
    append per matching record in the order of the loaded list, and stops at
    the first dispatch that throws.  When all go through, the trace gains
    exactly the planned dispatches and the handler reaches its await; when
    one throws, it is the last one dispatched: nothing that was planned after
    it is dispatched, its error is logged, and the store is the one the
    dispatches before it built. *)
Theorem appends_follow_list_order (chats : list ChatTypes) (msg : MessageTypes)
    (r : Runtime AppState) :
  (forall s,
     reduceAll rootReducer (planned chats msg) (store r) = Normal s ->
     handleRealtimeMessage rootReducer chats msg r
     = (Normal Pending,
        {| store := s;
           trace := trace r ++ map EvDispatch (planned chats msg) |}))
  /\ (forall pre a post s e,
        planned chats msg = pre ++ a :: post ->
        reduceAll rootReducer pre (store r) = Normal s ->
        rootReducer a s = Throw e ->
        handleRealtimeMessage rootReducer chats msg r
        = (Normal Fulfilled,
           {| store := s;
              trace := trace r ++ map EvDispatch (pre ++ [a])
                               ++ [EvConsoleError failureLabel e] |})).
Proof.
  split.
  - intros s H. apply handle_runs. exact H.
  - intros pre a post s e Hsplit Hpre Ha.
    apply (@handle_stops _ rootReducer chats msg r pre a post s e Hsplit Hpre Ha).
Qed.

Lemma emit_no_listener (socket : nat) (ev : string) (msg : MessageTypes)
    (w : World AppState) :
  listeners w = [] -> emit rootReducer socket ev msg w = w.
Proof. intros H. unfold emit. rewrite H. reflexivity. Qed.

Lemma step_without_socket (w : World AppState) (s : Step) :
  rendersWithSocket s = false ->
  listeners w = [] ->
  runtime (runStep rootReducer selectChats w s) = runtime w
  /\ listeners (runStep rootReducer selectChats w s) = [].
Proof.
  intros Hs Hl. destruct s as [socket msg|[socket|]| |h]; simpl in *;
    try discriminate Hs.
  - rewrite emit_no_listener by exact Hl. auto.
  - unfold reactCommit, welcomeEffect. destruct (cleanup w) as [c|]; simpl.
    + rewrite Hl. destruct (c_socket c); auto.
    + auto.
  - unfold reactUnmount. destruct (cleanup w) as [c|]; simpl; auto.
    rewrite Hl. destruct (c_socket c); auto.
  - auto.
Qed.

(** X3: While there is no socket, mounting and re-rendering register nothing, and
    whatever is delivered is processed by no handler: store and trace stay as
    they were. *)
Theorem no_socket_no_processing (w : World AppState) (steps : list Step) :
  forallb (fun s => negb (rendersWithSocket s)) steps = true ->
  listeners w = [] ->
  runtime (run rootReducer selectChats steps w) = runtime w
  /\ listeners (run rootReducer selectChats steps w) = [].
Proof.
  revert w. induction steps as [|s steps IH]; intros w Hs Hl; [auto|].
  simpl in Hs. apply andb_true_iff in Hs. destruct Hs as [Hs Hrest].
  apply negb_true_iff in Hs.
  destruct (step_without_socket w s Hs Hl) as [Hr Hl'].
  rewrite run_cons.
  destruct (IH _ Hrest Hl') as [A B]. rewrite A. auto.
Qed.

Lemma step_owns (base : list Listener) (w : World AppState) (s : Step) :
  ownsAtMostOne base w ->
  ownsAtMostOne base (runStep rootReducer selectChats w s).
Proof.
  intros H. destruct s as [socket msg|socket| |h]; simpl.
  - destruct (emit_frame rootReducer socket "realtime" msg w) as (L & C & N).
    unfold ownsAtMostOne. rewrite L, C, N. exact H.
  - apply commit_owns. exact H.
  - pose proof (unmount_owns H) as HL.
    destruct H as [Hlt Hown]. unfold reactUnmount in *.
    destruct (cleanup w) as [c|] eqn:Ec.
    + split; [exact Hlt | exact HL].
    + split; [exact Hlt|]. rewrite Ec. exact Hown.
  - exact H.
Qed.

Lemma run_owns (base : list Listener) (steps : list Step) (w : World AppState) :
  ownsAtMostOne base w ->
  ownsAtMostOne base (run rootReducer selectChats steps w).
Proof.
  revert w. induction steps as [|s steps IH]; intros w H; auto.
  rewrite run_cons. apply IH. apply step_owns. exact H.
Qed.

Lemma invoke_counts (msg : MessageTypes) (w : World AppState) (l : Listener) :
  let evs := eventsSince (runtime w) (runtime (invoke rootReducer msg w l)) in
  List.length (filter isInvoke evs) = 1
  /\ List.length (filter isChatsSignal evs) = 1.
Proof.
  intros evs. subst evs. unfold invoke.
  destruct (handle_shape rootReducer (l_chats l) msg
              (emitEvent (EvInvoke (l_handler l)) (runtime w)))
    as (k & log & p & r' & E & T & C).
  rewrite E.
  assert (Hr : eventsSince (runtime w) r'
               = EvInvoke (l_handler l) :: chatsSignal
                   :: map appendEvent (firstn k (matching (l_chats l) msg)) ++ log).
  { unfold eventsSince. rewrite T. unfold emitEvent. simpl.
    rewrite <- app_assoc. simpl. apply skipn_length_app. }
  assert (Hc : List.length (filter isInvoke (eventsSince (runtime w) r')) = 1
               /\ List.length (filter isChatsSignal (eventsSince (runtime w) r')) = 1).
  { rewrite Hr. simpl.
    rewrite !filter_app, (count_append_events isInvoke),
      (count_append_events isChatsSignal) by reflexivity.
    destruct C as [(_ & -> & _)|(_ & e & ->)]; split; reflexivity. }
  destruct p; simpl; exact Hc.
Qed.

(** X4: In every state the event loop reaches from the start, the view has at
    most one handler registered, so one delivered envelope is handled at most
    once: at most one call of the handler and at most one "Chats" signal. *)
Theorem delivery_is_handled_at_most_once (s0 : AppState) (steps : list Step)
    (socket : nat) (msg : MessageTypes) :
  let w := run rootReducer selectChats steps (initialWorld s0) in
  let evs := eventsSince (runtime w)
               (runtime (emit rootReducer socket "realtime" msg w)) in
  List.length (listeners w) <= 1
  /\ List.length (filter isInvoke evs) <= 1
  /\ List.length (filter isChatsSignal evs) <= 1.
Proof.
  intros w evs.
  assert (Hown : ownsAtMostOne [] w).
  { apply run_owns. split; simpl; auto. }
  pose proof (owns_length Hown) as Hlen. simpl in Hlen.
  split; [exact Hlen|].
  subst evs. unfold emit.
  destruct (listeners w) as [|l [|l' ls]] eqn:HL.
  - simpl. unfold eventsSince. rewrite skipn_all. simpl. lia.
  - simpl. destruct (listensTo socket "realtime" l); simpl.
    + destruct (invoke_counts msg w l) as [A B]. lia.
    + unfold eventsSince. rewrite skipn_all. simpl. lia.
  - simpl in Hlen. lia.
Qed.

End WelcomeExtras.

Lemma invalidation_failure_skips_appends_witness :
  handleRealtimeMessage failingInvalidation [chatB; chatA] envelopeA
    {| store := 0; trace := [] |}
  = (Normal Fulfilled,
     {| store := 0;
        trace := [chatsSignal; EvConsoleError failureLabel "invalidation failed"] |}).
Proof.
  apply (invalidation_failure_skips_appends nat failingInvalidation
           [chatB; chatA] envelopeA {| store := 0; trace := [] |}
           "invalidation failed").
  reflexivity.
Defined.

Lemma appends_follow_list_order_witness :
  handleRealtimeMessage failingSecondAppend [chatA; chatB; chatA; chatA]
    envelopeA {| store := 0; trace := [] |}
  = (Normal Fulfilled,
     {| store := 1;
        trace := [chatsSignal; appendEvent chatA; appendEvent chatA;
                  EvConsoleError failureLabel "append failed"] |})
  /\ handleRealtimeMessage specReducer [chatA; chatB; chatA] envelopeA
       scenarioRuntime
     = (Normal Pending,
        {| store := {| summaries := [chatA; chatB];
                       staleTags := ["Chats"] |};
           trace := [chatsSignal; appendEvent chatA; appendEvent chatA] |}).
Proof.
  split.
  - destruct (appends_follow_list_order nat failingSecondAppend
                [chatA; chatB; chatA; chatA] envelopeA
                {| store := 0; trace := [] |}) as [_ H].
    exact (H [invalidateTags ["Chats"]; appendLatestChat chatA]
             (appendLatestChat chatA) [appendLatestChat chatA] 1
             "append failed" eq_refl eq_refl eq_refl).
  - destruct (appends_follow_list_order SpecState specReducer
                [chatA; chatB; chatA] envelopeA scenarioRuntime) as [H _].
    exact (H {| summaries := [chatA; chatB]; staleTags := ["Chats"] |} eq_refl).
Defined.

Lemma no_socket_no_processing_witness :
  runtime (run specReducer summaries
             [Render None; Deliver 0 envelopeA; Render None; Unmount;
              Deliver 0 envelopeZ]
             (initialWorld scenarioStore))
  = scenarioRuntime.
Proof.
  refine (proj1 (no_socket_no_processing SpecState specReducer summaries
                   (initialWorld scenarioStore)
                   [Render None; Deliver 0 envelopeA; Render None; Unmount;
                    Deliver 0 envelopeZ] _ _)); reflexivity.
Defined.

(** ** Facts about the regular expressions *)

Lemma nonEmpty_app {A : Type} (l1 l2 : list A) :
  nonEmpty (l1 ++ l2) = nonEmpty l1 || nonEmpty l2.
Proof. destruct l1; reflexivity. Qed.

Lemma iterate_step (step : Pos -> list Pos) (i : nat) (c : N) (rest : JsString) :
  iterate step (List.length (c :: rest)) (i, c :: rest)
  = (i, c :: rest)
      :: flat_map (fun q => if Nat.ltb (List.length (snd q)) (S (List.length rest))
                            then iterate step (List.length rest) q else [])
                  (step (i, c :: rest)).
Proof. reflexivity. Qed.

Lemma iterate_oneUnit (f : N -> bool) (i : nat) (c : N) (rest : JsString) :
  iterate (oneUnit f) (List.length (c :: rest)) (i, c :: rest)
  = (i, c :: rest)
      :: (if f c then iterate (oneUnit f) (List.length rest) (S i, rest) else []).
Proof.
  rewrite iterate_step. unfold oneUnit at 2. cbn [snd fst].
  destruct (f c) eqn:E; cbn [flat_map]; [|reflexivity].
  cbn [snd]. rewrite (proj2 (Nat.ltb_lt _ _)) by lia.
  rewrite app_nil_r. reflexivity.
Qed.

(** [^] anchors a search at index 0. *)
Lemma searchFrom_anchored_later (r : Regex) (i : nat) (s : JsString) :
  searchFrom (Seq Bol r) (S i) s = false.
Proof.
  revert i. induction s as [|c rest IH]; intros i; simpl; auto.
Qed.

Lemma search_anchored (r : Regex) (s : JsString) :
  search (Seq Bol r) s = nonEmpty (ends r (0, s)).
Proof.
  unfold search. destruct s as [|c rest]; simpl.
  - rewrite app_nil_r. destruct (ends r _); reflexivity.
  - rewrite app_nil_r. destruct (ends r _); [|reflexivity].
    apply searchFrom_anchored_later.
Qed.

(** [(?=r)] in front of [rest] lets [rest] match exactly when [r] matches. *)
Lemma ends_lookahead_seq (r rest : Regex) (p : Pos) :
  ends (Seq (LookAhead r) rest) p
  = if nonEmpty (ends r p) then ends rest p else [].
Proof.
  simpl. destruct (ends r p); simpl; [reflexivity | apply app_nil_r].
Qed.

Lemma ends_lookahead (r : Regex) (p : Pos) :
  nonEmpty (ends (LookAhead r) p) = nonEmpty (ends r p).
Proof. simpl. destruct (ends r p); reflexivity. Qed.

(** [[class]*$] from a position: every remaining unit is in the class. *)
Lemma star_class_to_end (ranges : list (N * N)) (i : nat) (s : JsString) :
  nonEmpty (flat_map (ends Eol)
              (iterate (ends (Chars ranges)) (List.length s) (i, s)))
  = forallb (inRanges ranges) s.
Proof.
  revert i. induction s as [|c rest IH]; intros i; [reflexivity|].
  change (ends (Chars ranges)) with (oneUnit (inRanges ranges)).
  rewrite iterate_oneUnit. simpl.
  destruct (inRanges ranges c); [|reflexivity].
  apply IH.
Qed.

(** [^[class]+$]: the input is not empty and all of it is in the class. *)
Lemma search_class_plus (ranges : list (N * N)) (s : JsString) :
  search (Seq Bol (Seq (Plus (Chars ranges)) Eol)) s
  = negb (Nat.eqb (List.length s) 0) && forallb (inRanges ranges) s.
Proof.
  rewrite search_anchored. destruct s as [|c rest]; [reflexivity|].
  change (ends (Seq (Plus (Chars ranges)) Eol) (0, c :: rest))
    with (flat_map (ends Eol)
            (flat_map (fun q => iterate (ends (Chars ranges))
                                        (List.length (snd q)) q)
                      (oneUnit (inRanges ranges) (0, c :: rest)))).
  unfold oneUnit at 1. cbn [snd fst].
  cbn [List.length Nat.eqb negb andb forallb].
  destruct (inRanges ranges c) eqn:E; cbn [flat_map]; [|reflexivity].
  rewrite app_nil_r. cbn [snd andb]. apply star_class_to_end.
Qed.

Lemma dots_then_unit (f : N -> bool) (i : nat) (s : JsString) :
  (forall c, f c = true -> isLineTerminator c = false) ->
  nonEmpty (flat_map (oneUnit f)
              (iterate (oneUnit (fun c => negb (isLineTerminator c)))
                       (List.length s) (i, s)))
  = existsb f (firstLine s).
Proof.
  intros Hcls. revert i. induction s as [|c rest IH]; intros i; [reflexivity|].
  rewrite iterate_oneUnit. cbn [flat_map firstLine]. rewrite nonEmpty_app.
  unfold oneUnit at 1. cbn [snd fst].
  destruct (isLineTerminator c) eqn:Elt; cbn [negb].
  - cbn [flat_map existsb]. destruct (f c) eqn:Ec; [|reflexivity].
    rewrite (Hcls c Ec) in Elt. discriminate Elt.
  - cbn [existsb]. rewrite IH. destruct (f c); reflexivity.
Qed.

(** [.*[class]] from a position: the class occurs before the first line
    terminator. *)
Lemma dots_then_class (ranges : list (N * N)) (i : nat) (s : JsString) :
  (forall c, inRanges ranges c = true -> isLineTerminator c = false) ->
  nonEmpty (ends (Seq (Star Dot) (Chars ranges)) (i, s))
  = existsb (inRanges ranges) (firstLine s).
Proof.
  intros Hcls. apply (dots_then_unit (inRanges ranges) i s Hcls).
Qed.

Lemma firstLine_app_terminator (pre : JsString) (c : N) (rest : JsString) :
  isLineTerminator c = true -> firstLine (pre ++ c :: rest) = firstLine pre.
Proof.
  intros Hc. induction pre as [|x pre IH]; simpl.
  - rewrite Hc. reflexivity.
  - destruct (isLineTerminator x); [reflexivity | f_equal; exact IH].
Qed.

Lemma class_excludes_terminators (ranges : list (N * N)) :
  forallb (fun range => N.ltb 13 (fst range) && N.ltb (snd range) 8232) ranges = true ->
  forall c, inRanges ranges c = true -> isLineTerminator c = false.
Proof.
  intros Hr c Hc. unfold inRanges in Hc. apply existsb_exists in Hc.
  destruct Hc as (range & Hin & Hb).
  rewrite forallb_forall in Hr. specialize (Hr range Hin).
  apply andb_true_iff in Hr, Hb. destruct Hr as [H1 H2], Hb as [H3 H4].
  apply N.ltb_lt in H1, H2. apply N.leb_le in H3, H4.
  unfold isLineTerminator.
  repeat (apply orb_false_iff; split); apply N.eqb_neq; lia.
Qed.

(** ** Facts about the schemas *)

Lemma validate_None {V : Type} (schema : Yup.Schema V) (value : option V) :
  Yup.validate schema value = None
  <-> forallb (fun rule => fst rule value) schema = true.
Proof.
  induction schema as [|[test message] rest IH]; simpl.
  - tauto.
  - destruct (test value); simpl; [exact IH|].
    split; intros H; discriminate H.
Qed.

Lemma word_class (c : N) :
  inRanges [(97, 122); (65, 90); (48, 57); (95, 95)]%N c = isWordUnit c.
Proof.
  unfold inRanges, isWordUnit, isLower, isUpper, isDigit. simpl.
  rewrite orb_false_r, !orb_assoc. f_equal.
  destruct (N.eqb_spec c 95) as [->|Hne]; [reflexivity|].
  apply andb_false_iff.
  destruct (N.leb_spec 95 c); [right; apply N.leb_gt; lia | left; reflexivity].
Qed.

Lemma lower_class (c : N) : inRanges [(97, 122)]%N c = isLower c.
Proof. unfold inRanges, isLower. simpl. apply orb_false_r. Qed.

Lemma upper_class (c : N) : inRanges [(65, 90)]%N c = isUpper c.
Proof. unfold inRanges, isUpper. simpl. apply orb_false_r. Qed.

Lemma digit_class (c : N) : inRanges [(48, 57)]%N c = isDigit c.
Proof. unfold inRanges, isDigit. simpl. apply orb_false_r. Qed.

Lemma single_range (c x : N) : N.leb x c && N.leb c x = N.eqb c x.
Proof.
  destruct (N.eqb_spec c x) as [->|Hne].
  - rewrite N.leb_refl. reflexivity.
  - apply andb_false_iff.
    destruct (N.leb_spec x c); [right; apply N.leb_gt; lia | left; reflexivity].
Qed.

Lemma special_class (c : N) :
  inRanges [(33, 33); (64, 64); (35, 35); (36, 36); (37, 37);
            (94, 94); (38, 38); (42, 42)]%N c = isSpecial c.
Proof.
  unfold inRanges, isSpecial. simpl. rewrite !single_range. reflexivity.
Qed.

Lemma forallb_ext_eq {A : Type} (f g : A -> bool) (l : list A) :
  (forall x, f x = g x) -> forallb f l = forallb g l.
Proof. intros H. induction l; simpl; [|rewrite H, IHl]; reflexivity. Qed.

Lemma existsb_ext_eq {A : Type} (f g : A -> bool) (l : list A) :
  (forall x, f x = g x) -> existsb f l = existsb g l.
Proof. intros H. induction l; simpl; [|rewrite H, IHl]; reflexivity. Qed.

(** The username pattern, read plainly. *)
Lemma username_pattern_reads (v : JsString) :
  search SignUp.usernamePattern v
  = negb (Nat.eqb (List.length v) 0) && forallb isWordUnit v.
Proof.
  unfold SignUp.usernamePattern. rewrite search_class_plus.
  f_equal. apply forallb_ext_eq. exact word_class.
Qed.

(** The password pattern, read plainly. *)
Lemma password_pattern_reads (v : JsString) :
  search SignUp.passwordPattern v = hasAllKinds (firstLine v).
Proof.
  unfold SignUp.passwordPattern, hasAllKinds.
  rewrite search_anchored, !ends_lookahead_seq.
  rewrite !dots_then_class
    by (apply class_excludes_terminators; reflexivity).
  rewrite (existsb_ext_eq _ _ _ lower_class), (existsb_ext_eq _ _ _ upper_class),
    (existsb_ext_eq _ _ _ digit_class).
  destruct (existsb isLower (firstLine v)); [|reflexivity].
  destruct (existsb isUpper (firstLine v)); [|reflexivity].
  destruct (existsb isDigit (firstLine v)); [|reflexivity].
  rewrite ends_lookahead, dots_then_class
    by (apply class_excludes_terminators; reflexivity).
  apply existsb_ext_eq. exact special_class.
Qed.

Lemma username_rules (v : JsString) :
  Yup.validate SignUp.usernameSchema (Some v) = None
  <-> 4 <= List.length v <= 12 /\ forallb isWordUnit v = true.
Proof.
  rewrite validate_None. unfold SignUp.usernameSchema.
  cbn [forallb fst Yup.required Yup.min Yup.max Yup.matches].
  rewrite username_pattern_reads, !andb_true_iff, negb_true_iff,
    Nat.eqb_neq, !Nat.leb_le.
  split; intros H; repeat split; try tauto; try lia.
Qed.

Lemma password_rules (v : JsString) :
  Yup.validate SignUp.passwordSchema (Some v) = None
  <-> 6 <= List.length v <= 16 /\ hasAllKinds (firstLine v) = true.
Proof.
  rewrite validate_None. unfold SignUp.passwordSchema.
  cbn [forallb fst Yup.required Yup.min Yup.max Yup.matches].
  rewrite password_pattern_reads, !andb_true_iff, negb_true_iff,
    Nat.eqb_neq, !Nat.leb_le.
  split; intros H; repeat split; try tauto; try lia.
Qed.

Lemma avatar_rules (value : option (list File)) :
  Yup.validate SignUp.avatarSchema value = None
  <-> forall file rest, value = Some (file :: rest) ->
        In (type file) acceptedImageTypes /\ (size file <= 5242880)%N.
Proof.
  rewrite validate_None. unfold SignUp.avatarSchema.
  cbn [forallb fst]. rewrite !andb_true_iff.
  destruct value as [[|file rest]|]; simpl.
  - split; [intros _ f r H; discriminate H | auto].
  - rewrite !orb_true_iff, !String.eqb_eq, N.leb_le. unfold acceptedImageTypes.
    simpl. split.
    + intros (H1 & H2 & _) f r E. inversion E; subst. split; [|exact H2].
      destruct H1 as [H|[H|[H|[H|H]]]]; try discriminate H;
        rewrite H; auto 6.
    + intros Hall. destruct (Hall file rest eq_refl) as [H1 H2].
      split; [|split; auto].
      destruct H1 as [H|[H|[H|[H|[]]]]]; rewrite <- H; auto 6.
  - split; [intros _ f r H; discriminate H | auto].
Qed.

(** ** Facts about the submit handlers *)

Section FlowFacts.

Variables S V E P : Type.
Variable reducer : PageAction -> S -> Outcome S.
Variable server : string -> P -> Outcome string.
Variable defaultValues : V.
Variable noErrors : E.

Variables (url : string) (body : P) (contentType : option string).
Variables (fallback label : string).

Local Abbreviation flow :=
  (requestFlow reducer server defaultValues noErrors url body contentType
               fallback label).

Local Abbreviation invalidation :=
  (Api (invalidateTags ["Auth"; "User"; "Chats"])).

Lemma flow_rejected (p : Page S V E P) (t : Thrown) :
  server url body = Raised t ->
  flow p
  = (Returned tt,
     mkPage (p_store p) (p_values p) (p_errors p) false (p_location p)
       (p_trace p ++ [SetLoading true; Post url body contentType;
                      ToastError (orElse (responseMessage t) fallback);
                      ConsoleError label t; SetLoading false])).
Proof.
  intros Hs.
  unfold requestFlow, pbind, tryCatchFinally, setLoading, axiosPost, record,
    toastError, pageConsoleError.
  cbn. rewrite Hs. cbn. rewrite <- !app_assoc. reflexivity.
Qed.

Lemma flow_auth_throws (p : Page S V E P) (message : string) (t : Thrown) :
  server url body = Returned message ->
  reducer (setAuth true) (p_store p) = Raised t ->
  flow p
  = (Returned tt,
     mkPage (p_store p) defaultValues noErrors false (p_location p)
       (p_trace p ++ [SetLoading true; Post url body contentType; ResetForm;
                      Dispatched (setAuth true);
                      ToastError (orElse (responseMessage t) fallback);
                      ConsoleError label t; SetLoading false])).
Proof.
  intros Hs Ha.
  unfold requestFlow, pbind, tryCatchFinally, setLoading, axiosPost, record,
    toastError, pageConsoleError, reset, pageDispatch.
  cbn. rewrite Hs. cbn. rewrite Ha. cbn. rewrite <- !app_assoc. reflexivity.
Qed.

Lemma flow_invalidation_throws (p : Page S V E P) (message : string)
    (s1 : S) (t : Thrown) :
  server url body = Returned message ->
  reducer (setAuth true) (p_store p) = Returned s1 ->
  reducer invalidation s1 = Raised t ->
  flow p
  = (Returned tt,
     mkPage s1 defaultValues noErrors false "/"
       (p_trace p ++ [SetLoading true; Post url body contentType; ResetForm;
                      Dispatched (setAuth true); Navigate "/";
                      Dispatched invalidation;
                      ToastError (orElse (responseMessage t) fallback);
                      ConsoleError label t; SetLoading false])).
Proof.
  intros Hs Ha Hi.
  unfold requestFlow, pbind, tryCatchFinally, setLoading, axiosPost, record,
    toastError, pageConsoleError, reset, pageDispatch, navigate.
  cbn. rewrite Hs. cbn. rewrite Ha. cbn. rewrite Hi. cbn.
  rewrite <- !app_assoc. reflexivity.
Qed.

Lemma flow_success (p : Page S V E P) (message : string) (s1 s2 : S) :
  server url body = Returned message ->
  reducer (setAuth true) (p_store p) = Returned s1 ->
  reducer invalidation s1 = Returned s2 ->
  flow p
  = (Returned tt,
     mkPage s2 defaultValues noErrors false "/"
       (p_trace p ++ [SetLoading true; Post url body contentType; ResetForm;
                      Dispatched (setAuth true); Navigate "/";
                      Dispatched invalidation;
                      ToastSuccess message; SetLoading false])).
Proof.
  intros Hs Ha Hi.
  unfold requestFlow, pbind, tryCatchFinally, setLoading, axiosPost, record,
    toastSuccess, reset, pageDispatch, navigate.
  cbn. rewrite Hs. cbn. rewrite Ha. cbn. rewrite Hi. cbn.
  rewrite <- !app_assoc. reflexivity.
Qed.

Lemma pageEventsSince_app (p : Page S V E P) (s : S) (v : V) (e : E)
    (loading : bool) (location : string) (evs : list (PageEvent P)) :
  pageEventsSince p (mkPage s v e loading location (p_trace p ++ evs)) = evs.
Proof.
  unfold pageEventsSince. cbn. induction (p_trace p); cbn; auto.
Qed.

(** Whatever the server and the reducer do, the flow returns with [loading]
    off, after one request and one toast, and its final errors are those of
    the page before or those of a reset form. *)
Lemma flow_shape (p : Page S V E P) :
  exists p' middle,
    flow p = (Returned tt, p')
    /\ p_loading p' = false
    /\ (p_errors p' = p_errors p \/ p_errors p' = noErrors)
    /\ pageEventsSince p p'
       = SetLoading true :: Post url body contentType
           :: middle ++ [SetLoading false]
    /\ filter isPost middle = []
    /\ List.length (filter isToast middle) = 1.
Proof.
  destruct (server url body) as [message|t] eqn:Hs.
  - destruct (reducer (setAuth true) (p_store p)) as [s1|t] eqn:Ha.
    + destruct (reducer invalidation s1) as [s2|t] eqn:Hi.
      * eexists. exists [ResetForm; Dispatched (setAuth true); Navigate "/";
                         Dispatched invalidation; ToastSuccess message].
        rewrite (flow_success p message s1 s2 Hs Ha Hi).
        rewrite pageEventsSince_app. cbn. auto 10.
      * eexists. exists [ResetForm; Dispatched (setAuth true); Navigate "/";
                         Dispatched invalidation;
                         ToastError (orElse (responseMessage t) fallback);
                         ConsoleError label t].
        rewrite (flow_invalidation_throws p message s1 t Hs Ha Hi).
        rewrite pageEventsSince_app. cbn. auto 10.
    + eexists. exists [ResetForm; Dispatched (setAuth true);
                       ToastError (orElse (responseMessage t) fallback);
                       ConsoleError label t].
      rewrite (flow_auth_throws p message t Hs Ha).
      rewrite pageEventsSince_app. cbn. auto 10.
  - eexists. exists [ToastError (orElse (responseMessage t) fallback);
                     ConsoleError label t].
    rewrite (flow_rejected p t Hs).
    rewrite pageEventsSince_app. cbn. auto 10.
Qed.

End FlowFacts.

(** ** The sign-up schema *)

(** X5: The sign-up form accepts a username exactly when it is defined, has 4 to
    12 code units and consists of letters, digits and underscores only. *)
Theorem signup_username_accepted_exactly (value : option JsString) :
  Yup.validate SignUp.usernameSchema value = None
  <-> exists v, value = Some v
                /\ 4 <= List.length v <= 12
                /\ forallb isWordUnit v = true.
Proof.
  destruct value as [v|].
  - rewrite username_rules. split.
    + intros H. exists v. tauto.
    + intros (v' & E & H). inversion E. subst v'. exact H.
  - split; [intros H; discriminate H | intros (v & E & _); discriminate E].
Qed.

(** X6: Which message a rejected username gets: a missing or empty one is
    "required", then the length rules, and the character rule only for a
    username of an accepted length. *)
Theorem signup_username_message (value : option JsString) :
  (value = None \/ value = Some [] ->
   Yup.validate SignUp.usernameSchema value = Some "Username is required !")
  /\ (forall v, value = Some v -> 0 < List.length v < 4 ->
      Yup.validate SignUp.usernameSchema value
      = Some "Username must be at least 4 characters !")
  /\ (forall v, value = Some v -> 12 < List.length v ->
      Yup.validate SignUp.usernameSchema value
      = Some "Username must not exceed 12 characters !")
  /\ (forall v, value = Some v -> 4 <= List.length v <= 12 ->
      forallb isWordUnit v = false ->
      Yup.validate SignUp.usernameSchema value
      = Some "Username can only contain letters, numbers, and underscores !").
Proof.
  repeat split.
  - intros [->| ->]; reflexivity.
  - intros v -> Hlen. unfold SignUp.usernameSchema.
    cbn [Yup.validate Yup.required Yup.min].
    destruct (Nat.eqb_spec (List.length v) 0) as [E|_]; [lia|]. cbn [negb].
    destruct (Nat.leb_spec 4 (List.length v)); [lia | reflexivity].
  - intros v -> Hlen. unfold SignUp.usernameSchema.
    cbn [Yup.validate Yup.required Yup.min Yup.max].
    destruct (Nat.eqb_spec (List.length v) 0) as [E|_]; [lia|]. cbn [negb].
    destruct (Nat.leb_spec 4 (List.length v)); [|lia].
    destruct (Nat.leb_spec (List.length v) 12); [lia | reflexivity].
  - intros v -> Hlen Hbad. unfold SignUp.usernameSchema.
    cbn [Yup.validate Yup.required Yup.min Yup.max Yup.matches].
    destruct (Nat.eqb_spec (List.length v) 0) as [E|_]; [lia|]. cbn [negb].
    destruct (Nat.leb_spec 4 (List.length v)); [|lia].
    destruct (Nat.leb_spec (List.length v) 12); [|lia].
    rewrite username_pattern_reads, Hbad, andb_false_r. reflexivity.
Qed.

(** X7: The sign-up form accepts a password exactly when it is defined, has 6 to
    16 code units and its first line holds a lowercase letter, an uppercase
    letter, a digit and one of the special characters. *)
Theorem signup_password_accepted_exactly (value : option JsString) :
  Yup.validate SignUp.passwordSchema value = None
  <-> exists v, value = Some v
                /\ 6 <= List.length v <= 16
                /\ hasAllKinds (firstLine v) = true.
Proof.
  destruct value as [v|].
  - rewrite password_rules. split.
    + intros H. exists v. tauto.
    + intros (v' & E & H). inversion E. subst v'. exact H.
  - split; [intros H; discriminate H | intros (v & E & _); discriminate E].
Qed.

(** X8: The character rule of the password reads the first line only: what
    follows a line terminator does not count, so a password that starts with
    one is rejected whatever comes after it. *)
Theorem password_rule_reads_first_line (pre : JsString) (c : N)
    (rest : JsString) :
  isLineTerminator c = true ->
  search SignUp.passwordPattern (pre ++ c :: rest)
  = search SignUp.passwordPattern pre
  /\ Yup.validate SignUp.passwordSchema (Some (c :: rest)) <> None.
Proof.
  intros Hc. split.
  - rewrite !password_pattern_reads, firstLine_app_terminator by exact Hc.
    reflexivity.
  - rewrite password_rules. intros [_ H].
    cbn [firstLine] in H. rewrite Hc in H. discriminate H.
Qed.

Lemma schemas_agree (value : option JsString) :
  (Yup.validate Login.usernameSchema value = None
   <-> Yup.validate SignUp.usernameSchema value = None)
  /\ (Yup.validate Login.passwordSchema value = None
      <-> Yup.validate SignUp.passwordSchema value = None).
Proof.
  split; rewrite !validate_None; reflexivity.
Qed.

(** X9: The log-in form accepts exactly the usernames and passwords the sign-up
    form accepts. *)
Theorem login_accepts_what_signup_accepts (value : option JsString) :
  (Yup.validate Login.usernameSchema value = None
   <-> Yup.validate SignUp.usernameSchema value = None)
  /\ (Yup.validate Login.passwordSchema value = None
      <-> Yup.validate SignUp.passwordSchema value = None).
Proof.
  split; rewrite !validate_None.
  - unfold Login.usernameSchema, SignUp.usernameSchema.
    cbn [forallb fst]. reflexivity.
  - unfold Login.passwordSchema, SignUp.passwordSchema.
    cbn [forallb fst]. reflexivity.
Qed.

(** ** The sign-up handlers *)

Section SignUpFacts.

Variable S : Type.
Variable reducer : PageAction -> S -> Outcome S.
Variable server : string -> SignUp.Body -> Outcome string.

Local Abbreviation SignUpPage :=
  (Page S SignUp.SignupFormData SignUp.Errors SignUp.Body).
Local Abbreviation signup := (SignUp.signup S reducer server).
Local Abbreviation invalidation :=
  (Api (invalidateTags ["Auth"; "User"; "Chats"])).

Lemma signup_is_flow (data : SignUp.SignupFormData) :
  signup data
  = requestFlow reducer server SignUp.defaultValues SignUp.noErrors
      "/auth/signup" (SignUp.requestBody data) (Some "multipart/form-data")
      "Failed to Sign Up !" "Failed to Sign Up:".
Proof. reflexivity. Qed.

(** X10: Whatever the server answers and whatever the reducers do, [signup]
    returns (its promise is not rejected) with [loading] switched off again;
    it starts by switching [loading] on, issues exactly one request, to
    /auth/signup with the data, and shows exactly one toast. *)
Theorem signup_always_settles (data : SignUp.SignupFormData) (p : SignUpPage) :
  exists p',
    signup data p = (Returned tt, p')
    /\ p_loading p' = false
    /\ hd_error (pageEventsSince p p') = Some (SetLoading true)
    /\ last (pageEventsSince p p') (SetLoading true) = SetLoading false
    /\ filter isPost (pageEventsSince p p')
       = [Post "/auth/signup" (SignUp.requestBody data)
               (Some "multipart/form-data")]
    /\ List.length (filter isToast (pageEventsSince p p')) = 1.
Proof.
  rewrite signup_is_flow.
  destruct (flow_shape S SignUp.SignupFormData SignUp.Errors SignUp.Body
              reducer server SignUp.defaultValues SignUp.noErrors
              "/auth/signup" (SignUp.requestBody data)
              (Some "multipart/form-data")
              "Failed to Sign Up !" "Failed to Sign Up:" p)
    as (p' & middle & E & Hl & _ & Hev & Hpost & Htoast).
  exists p'. rewrite Hev. repeat split; auto.
  - change (SetLoading true :: Post "/auth/signup" (SignUp.requestBody data)
              (Some "multipart/form-data") :: middle ++ [SetLoading false])
      with ((SetLoading true :: Post "/auth/signup" (SignUp.requestBody data)
               (Some "multipart/form-data") :: middle) ++ [SetLoading false]).
    apply last_last.
  - cbn [filter isPost]. rewrite filter_app, Hpost. reflexivity.
  - cbn [filter isToast]. rewrite filter_app, length_app, Htoast. reflexivity.
Qed.

(** X11: When the request is rejected, nothing but the trace changes: the form
    keeps its values, the store and the location stay, and the toast shows
    the server's message, or "Failed to Sign Up !" when the rejection carries
    no message or an empty one. *)
Theorem signup_rejected_request (data : SignUp.SignupFormData) (p : SignUpPage)
    (t : Thrown) :
  server "/auth/signup" (SignUp.requestBody data) = Raised t ->
  signup data p
  = (Returned tt,
     mkPage (p_store p) (p_values p) (p_errors p) false (p_location p)
       (p_trace p
        ++ [SetLoading true;
            Post "/auth/signup" (SignUp.requestBody data)
                 (Some "multipart/form-data");
            ToastError (orElse (responseMessage t) "Failed to Sign Up !");
            ConsoleError "Failed to Sign Up:" t;
            SetLoading false]))
  /\ (responseMessage t = None \/ responseMessage t = Some EmptyString ->
      orElse (responseMessage t) "Failed to Sign Up !" = "Failed to Sign Up !").
Proof.
  intros Hs. split.
  - rewrite signup_is_flow. apply flow_rejected. exact Hs.
  - intros [-> | ->]; reflexivity.
Qed.

(** X12: When the request is accepted and both dispatches go through, the form is
    reset, the store has seen [setAuth(true)] and then the invalidation of
    Auth, User and Chats, the location is "/", and the toast shows the
    message of the response; the navigation comes before the invalidation. *)
Theorem signup_accepted_request (data : SignUp.SignupFormData) (p : SignUpPage)
    (message : string) (s1 s2 : S) :
  server "/auth/signup" (SignUp.requestBody data) = Returned message ->
  reducer (setAuth true) (p_store p) = Returned s1 ->
  reducer invalidation s1 = Returned s2 ->
  signup data p
  = (Returned tt,
     mkPage s2 SignUp.defaultValues SignUp.noErrors false "/"
       (p_trace p
        ++ [SetLoading true;
            Post "/auth/signup" (SignUp.requestBody data)
                 (Some "multipart/form-data");
            ResetForm; Dispatched (setAuth true); Navigate "/";
            Dispatched invalidation; ToastSuccess message;
            SetLoading false])).
Proof.
  intros Hs Ha Hi.
  rewrite signup_is_flow. apply (flow_success _ _ _ _ _ _ _ _ _ _ _ _ _ p message s1 s2 Hs Ha Hi).
Qed.

(** X13: When the request is accepted but a dispatch throws, the user is told the
    sign-up failed although the account was created: the form is already
    reset, a throw of [setAuth] leaves store and location as they were, and
    a throw of the invalidation comes after the navigation to "/". *)
Theorem signup_reports_failure_after_accepted_request
    (data : SignUp.SignupFormData) (p : SignUpPage) (message : string)
    (t : Thrown) :
  server "/auth/signup" (SignUp.requestBody data) = Returned message ->
  (reducer (setAuth true) (p_store p) = Raised t ->
   signup data p
   = (Returned tt,
      mkPage (p_store p) SignUp.defaultValues SignUp.noErrors false
        (p_location p)
        (p_trace p
         ++ [SetLoading true;
             Post "/auth/signup" (SignUp.requestBody data)
                  (Some "multipart/form-data");
             ResetForm; Dispatched (setAuth true);
             ToastError (orElse (responseMessage t) "Failed to Sign Up !");
             ConsoleError "Failed to Sign Up:" t;
             SetLoading false])))
  /\ (forall s1,
        reducer (setAuth true) (p_store p) = Returned s1 ->
        reducer invalidation s1 = Raised t ->
        signup data p
        = (Returned tt,
           mkPage s1 SignUp.defaultValues SignUp.noErrors false "/"
             (p_trace p
              ++ [SetLoading true;
                  Post "/auth/signup" (SignUp.requestBody data)
                       (Some "multipart/form-data");
                  ResetForm; Dispatched (setAuth true); Navigate "/";
                  Dispatched invalidation;
                  ToastError (orElse (responseMessage t) "Failed to Sign Up !");
                  ConsoleError "Failed to Sign Up:" t;
                  SetLoading false]))).
Proof.
  intros Hs. split.
  - intros Ha. rewrite signup_is_flow.
    apply (flow_auth_throws _ _ _ _ _ _ _ _ _ _ _ _ _ p message t Hs Ha).
  - intros s1 Ha Hi. rewrite signup_is_flow.
    apply (flow_invalidation_throws _ _ _ _ _ _ _ _ _ _ _ _ _ p message s1 t Hs Ha Hi).
Qed.

Lemma validation_cases (data : SignUp.SignupFormData) (p : SignUpPage) :
  SignUp.validation S reducer server data p
  = if SignUp.isEmptyObject (SignUp.schema (p_values p))
    then signup data (SignUp.checked S p)
    else (Returned tt, SignUp.checked S p).
Proof.
  unfold SignUp.validation, pbind, trigger, SignUp.checked.
  destruct (SignUp.isEmptyObject (SignUp.schema (p_values p))); reflexivity.
Qed.

Lemma onSubmit_cases (p : SignUpPage) :
  SignUp.onSubmit S reducer server p
  = if SignUp.isEmptyObject (SignUp.schema (p_values p))
    then match signup (p_values p) (SignUp.checked S p) with
         | (Returned _, p') => SignUp.toastErrors S (p_errors p') p'
         | (Raised t, p') => (Raised t, p')
         end
    else SignUp.toastErrors S (SignUp.schema (p_values p)) (SignUp.checked S p).
Proof.
  unfold SignUp.onSubmit, pbind, handleSubmit.
  change (mkPage (p_store p) (p_values p) (SignUp.schema (p_values p))
                 (p_loading p) (p_location p) (p_trace p))
    with (SignUp.checked S p).
  destruct (SignUp.isEmptyObject (SignUp.schema (p_values p))) eqn:H;
    [|reflexivity].
  rewrite validation_cases.
  change (p_values (SignUp.checked S p)) with (p_values p).
  rewrite H. reflexivity.
Qed.

(** X14: [validation(data)] is gated by the current values of the form, not by
    its argument: when they do not satisfy the schema it only stores the
    errors, and otherwise it runs [signup(data)]. *)
Theorem signup_validation_is_gated (data : SignUp.SignupFormData)
    (p : SignUpPage) :
  (SignUp.isEmptyObject (SignUp.schema (p_values p)) = false ->
   SignUp.validation S reducer server data p
   = (Returned tt, SignUp.checked S p))
  /\ (SignUp.isEmptyObject (SignUp.schema (p_values p)) = true ->
      SignUp.validation S reducer server data p
      = signup data (SignUp.checked S p)).
Proof.
  rewrite validation_cases. split; intros H; rewrite H; reflexivity.
Qed.

Lemma isEmptyObject_true (errors : SignUp.Errors) :
  SignUp.isEmptyObject errors = true ->
  SignUp.err_username errors = None /\ SignUp.err_bio errors = None
  /\ SignUp.err_password errors = None /\ SignUp.err_avatar errors = None.
Proof.
  destruct errors as [[u|] [b|] [w|] [a|]]; intros H;
    try discriminate H; auto.
Qed.

Lemma toastErrors_none (errors : SignUp.Errors) (p : SignUpPage) :
  SignUp.isEmptyObject errors = true ->
  SignUp.toastErrors S errors p = (Returned tt, p).
Proof.
  destruct errors as [[u|] [b|] [w|] [a|]]; intros H;
    try discriminate H; reflexivity.
Qed.

Lemma onSubmit_invalid (p : SignUpPage) :
  SignUp.isEmptyObject (SignUp.schema (p_values p)) = false ->
  SignUp.onSubmit S reducer server p
  = SignUp.toastErrors S (SignUp.schema (p_values p)) (SignUp.checked S p).
Proof.
  intros H. rewrite onSubmit_cases, H. reflexivity.
Qed.

(** A submit of a form that satisfies the schema is one run of [signup] on
    the values of the form, and the effect on the errors shows nothing. *)
Lemma onSubmit_valid (p : SignUpPage) :
  SignUp.isEmptyObject (SignUp.schema (p_values p)) = true ->
  exists p' middle,
    SignUp.onSubmit S reducer server p = (Returned tt, p')
    /\ p_loading p' = false
    /\ pageEventsSince p p'
       = SetLoading true
           :: Post "/auth/signup" (SignUp.requestBody (p_values p))
                   (Some "multipart/form-data")
           :: middle ++ [SetLoading false]
    /\ filter isPost middle = []
    /\ List.length (filter isToast middle) = 1.
Proof.
  intros H.
  destruct (flow_shape S SignUp.SignupFormData SignUp.Errors SignUp.Body
              reducer server SignUp.defaultValues SignUp.noErrors
              "/auth/signup" (SignUp.requestBody (p_values p))
              (Some "multipart/form-data")
              "Failed to Sign Up !" "Failed to Sign Up:" (SignUp.checked S p))
    as (p' & middle & E & Hl & Herr & Hev & Hpost & Htoast).
  exists p', middle.
  assert (Hrun : SignUp.onSubmit S reducer server p
                 = SignUp.toastErrors S (p_errors p') p').
  { rewrite onSubmit_cases, H, signup_is_flow, E. reflexivity. }
  rewrite Hrun, toastErrors_none.
  - repeat split; auto.
  - destruct Herr as [-> | ->]; [exact H | reflexivity].
Qed.

(** X15: A request leaves the page only with data that satisfy the schema: every
    [Post] of a submit goes to /auth/signup and carries the values of the
    form, with an accepted username and password, a bio of at most 50 code
    units if any, and for avatar the first file of the list, which is of an
    accepted type and of at most 5 MiB. *)
Theorem submit_posts_validated_data (p : SignUpPage) (url : string)
    (body : SignUp.Body) (contentType : option string) :
  In (Post url body contentType)
     (pageEventsSince p (snd (SignUp.onSubmit S reducer server p))) ->
  url = "/auth/signup"
  /\ body = SignUp.requestBody (p_values p)
  /\ (exists u, SignUp.body_username body = Some u
                /\ 4 <= List.length u <= 12 /\ forallb isWordUnit u = true)
  /\ (exists w, SignUp.body_password body = Some w
                /\ 6 <= List.length w <= 16
                /\ hasAllKinds (firstLine w) = true)
  /\ (forall b, SignUp.body_bio body = Some b -> List.length b <= 50)
  /\ (forall file, SignUp.body_avatar body = Some file ->
         In (type file) acceptedImageTypes /\ (size file <= 5242880)%N).
Proof.
  intros Hin.
  destruct (SignUp.isEmptyObject (SignUp.schema (p_values p))) eqn:Hvalid.
  - destruct (onSubmit_valid p Hvalid) as (p' & middle & E & _ & Hev & Hpost & _).
    rewrite E in Hin. cbn [snd] in Hin. rewrite Hev in Hin.
    assert (Hthis : Post url body contentType
                    = Post "/auth/signup" (SignUp.requestBody (p_values p))
                           (Some "multipart/form-data")).
    { destruct Hin as [Hin|[Hin|Hin]]; [discriminate Hin | auto |].
      apply in_app_or in Hin. destruct Hin as [Hin|[Hin|[]]].
      - assert (Hf : In (Post url body contentType) (filter isPost middle))
          by (apply filter_In; split; [exact Hin | reflexivity]).
        rewrite Hpost in Hf. destruct Hf.
      - discriminate Hin. }
    inversion Hthis; subst url body contentType. clear Hthis Hin.
    apply isEmptyObject_true in Hvalid.
    destruct Hvalid as (Hu & Hb & Hw & Ha).
    unfold SignUp.schema in Hu, Hb, Hw, Ha.
    cbn [SignUp.err_username SignUp.err_bio SignUp.err_password
         SignUp.err_avatar] in Hu, Hb, Hw, Ha.
    split; [reflexivity|]. split; [reflexivity|].
    unfold SignUp.requestBody.
    cbn [SignUp.body_username SignUp.body_bio SignUp.body_password
         SignUp.body_avatar].
    split; [|split; [|split]].
    + destruct (SignUp.username (p_values p)) as [u|]; [|discriminate Hu].
      exists u. split; [reflexivity|]. apply username_rules. exact Hu.
    + destruct (SignUp.password (p_values p)) as [w|]; [|discriminate Hw].
      exists w. split; [reflexivity|]. apply password_rules. exact Hw.
    + intros b Eb. rewrite Eb in Hb. apply validate_None in Hb.
      cbn in Hb. rewrite andb_true_r in Hb. apply Nat.leb_le. exact Hb.
    + intros file Ef.
      destruct (SignUp.avatar (p_values p)) as [[|f rest]|] eqn:Eav;
        try discriminate Ef.
      cbn in Ef. inversion Ef; subst f.
      apply (proj1 (avatar_rules (Some (file :: rest))) Ha file rest eq_refl).
  - rewrite onSubmit_invalid in Hin by exact Hvalid. exfalso.
    unfold SignUp.toastErrors, SignUp.checked, toastError, pret, record in Hin.
    destruct (SignUp.err_username (SignUp.schema (p_values p)));
      [|destruct (SignUp.err_bio (SignUp.schema (p_values p)));
        [|destruct (SignUp.err_password (SignUp.schema (p_values p)));
          [|destruct (SignUp.err_avatar (SignUp.schema (p_values p)))]]];
      cbn [snd] in Hin; unfold pageEventsSince in Hin; cbn [p_trace] in Hin;
      try rewrite skipn_length_app in Hin; try rewrite skipn_all in Hin;
      cbn in Hin; intuition discriminate.
Qed.

(** X16: A submit of a form that does not satisfy the schema issues no request
    and changes nothing but the stored errors; it shows one toast, the error
    of the first field that has one in the order username, bio, password,
    avatar. *)
Theorem invalid_submit_toasts_first_error (p : SignUpPage) :
  SignUp.isEmptyObject (SignUp.schema (p_values p)) = false ->
  exists message,
    SignUp.onSubmit S reducer server p
    = (Returned tt,
       mkPage (p_store p) (p_values p) (SignUp.schema (p_values p))
              (p_loading p) (p_location p)
              (p_trace p ++ [ToastError message]))
    /\ match SignUp.err_username (SignUp.schema (p_values p)),
             SignUp.err_bio (SignUp.schema (p_values p)),
             SignUp.err_password (SignUp.schema (p_values p)),
             SignUp.err_avatar (SignUp.schema (p_values p)) with
       | Some m, _, _, _ => message = m
       | None, Some m, _, _ => message = m
       | None, None, Some m, _ => message = m
       | None, None, None, Some m => message = m
       | None, None, None, None => False
       end.
Proof.
  intros H. rewrite onSubmit_invalid by exact H.
  unfold SignUp.isEmptyObject in H.
  unfold SignUp.toastErrors, SignUp.checked, toastError, record.
  destruct (SignUp.err_username (SignUp.schema (p_values p))) as [m|];
    [exists m; split; reflexivity|].
  destruct (SignUp.err_bio (SignUp.schema (p_values p))) as [m|];
    [exists m; split; reflexivity|].
  destruct (SignUp.err_password (SignUp.schema (p_values p))) as [m|];
    [exists m; split; reflexivity|].
  destruct (SignUp.err_avatar (SignUp.schema (p_values p))) as [m|];
    [exists m; split; reflexivity|].
  discriminate H.
Qed.

End SignUpFacts.

(** ** The log-in handlers *)

Section LoginFacts.

Variable S : Type.
Variable reducer : PageAction -> S -> Outcome S.
Variable server : string -> Login.LoginFormData -> Outcome string.

Local Abbreviation LoginPage :=
  (Page S Login.LoginFormData Login.Errors Login.LoginFormData).
Local Abbreviation login := (Login.login S reducer server).
Local Abbreviation invalidation :=
  (Api (invalidateTags ["Auth"; "User"; "Chats"])).

Lemma login_is_flow (data : Login.LoginFormData) :
  login data
  = requestFlow reducer server Login.defaultValues Login.noErrors
      "/auth/login" data None "Failed to Log In !" "Failed to Login:".
Proof. reflexivity. Qed.

(** X17: Whatever the server answers and whatever the reducers do, [login]
    returns with [loading] switched off again, after exactly one request, to
    /auth/login with the data as they are and no content type, and exactly
    one toast. *)
Theorem login_always_settles (data : Login.LoginFormData) (p : LoginPage) :
  exists p',
    login data p = (Returned tt, p')
    /\ p_loading p' = false
    /\ hd_error (pageEventsSince p p') = Some (SetLoading true)
    /\ last (pageEventsSince p p') (SetLoading true) = SetLoading false
    /\ filter isPost (pageEventsSince p p') = [Post "/auth/login" data None]
    /\ List.length (filter isToast (pageEventsSince p p')) = 1.
Proof.
  rewrite login_is_flow.
  destruct (flow_shape S Login.LoginFormData Login.Errors Login.LoginFormData
              reducer server Login.defaultValues Login.noErrors
              "/auth/login" data None
              "Failed to Log In !" "Failed to Login:" p)
    as (p' & middle & E & Hl & _ & Hev & Hpost & Htoast).
  exists p'. rewrite Hev. repeat split; auto.
  - change (SetLoading true :: Post "/auth/login" data None
              :: middle ++ [SetLoading false])
      with ((SetLoading true :: Post "/auth/login" data None :: middle)
              ++ [SetLoading false]).
    apply last_last.
  - cbn [filter isPost]. rewrite filter_app, Hpost. reflexivity.
  - cbn [filter isToast]. rewrite filter_app, length_app, Htoast. reflexivity.
Qed.

(** X18: The two ends of a log-in.  A rejected request leaves the form filled and
    the user where they are, with the server's message or "Failed to Log In !"
    as toast; an accepted one resets the form, sets the auth flag,
    navigates to "/" and then invalidates Auth, User and Chats. *)
Theorem login_outcomes (data : Login.LoginFormData) (p : LoginPage) :
  (forall t,
     server "/auth/login" data = Raised t ->
     login data p
     = (Returned tt,
        mkPage (p_store p) (p_values p) (p_errors p) false (p_location p)
          (p_trace p
           ++ [SetLoading true; Post "/auth/login" data None;
               ToastError (orElse (responseMessage t) "Failed to Log In !");
               ConsoleError "Failed to Login:" t;
               SetLoading false])))
  /\ (forall message s1 s2,
        server "/auth/login" data = Returned message ->
        reducer (setAuth true) (p_store p) = Returned s1 ->
        reducer invalidation s1 = Returned s2 ->
        login data p
        = (Returned tt,
           mkPage s2 Login.defaultValues Login.noErrors false "/"
             (p_trace p
              ++ [SetLoading true; Post "/auth/login" data None;
                  ResetForm; Dispatched (setAuth true); Navigate "/";
                  Dispatched invalidation; ToastSuccess message;
                  SetLoading false]))).
Proof.
  split.
  - intros t Hs. rewrite login_is_flow. apply flow_rejected. exact Hs.
  - intros message s1 s2 Hs Ha Hi. rewrite login_is_flow.
    apply (flow_success _ _ _ _ _ _ _ _ _ _ _ _ _ p message s1 s2 Hs Ha Hi).
Qed.

Lemma login_validation_cases (data : Login.LoginFormData) (p : LoginPage) :
  Login.validation S reducer server data p
  = if Login.isEmptyObject (Login.schema (p_values p))
    then login data (Login.checked S p)
    else (Returned tt, Login.checked S p).
Proof.
  unfold Login.validation, pbind, trigger, Login.checked.
  destruct (Login.isEmptyObject (Login.schema (p_values p))); reflexivity.
Qed.

Lemma login_onSubmit_cases (p : LoginPage) :
  Login.onSubmit S reducer server p
  = if Login.isEmptyObject (Login.schema (p_values p))
    then match login (p_values p) (Login.checked S p) with
         | (Returned _, p') => Login.toastErrors S (p_errors p') p'
         | (Raised t, p') => (Raised t, p')
         end
    else Login.toastErrors S (Login.schema (p_values p)) (Login.checked S p).
Proof.
  unfold Login.onSubmit, pbind, handleSubmit.
  change (mkPage (p_store p) (p_values p) (Login.schema (p_values p))
                 (p_loading p) (p_location p) (p_trace p))
    with (Login.checked S p).
  destruct (Login.isEmptyObject (Login.schema (p_values p))) eqn:H;
    [|reflexivity].
  rewrite login_validation_cases.
  change (p_values (Login.checked S p)) with (p_values p).
  rewrite H. reflexivity.
Qed.

Lemma login_toastErrors_none (errors : Login.Errors) (p : LoginPage) :
  Login.isEmptyObject errors = true ->
  Login.toastErrors S errors p = (Returned tt, p).
Proof.
  destruct errors as [[u|] [w|]]; intros H; try discriminate H; reflexivity.
Qed.

Lemma login_onSubmit_valid (p : LoginPage) :
  Login.isEmptyObject (Login.schema (p_values p)) = true ->
  exists p' middle,
    Login.onSubmit S reducer server p = (Returned tt, p')
    /\ pageEventsSince p p'
       = SetLoading true :: Post "/auth/login" (p_values p) None
           :: middle ++ [SetLoading false]
    /\ filter isPost middle = [].
Proof.
  intros H.
  destruct (flow_shape S Login.LoginFormData Login.Errors Login.LoginFormData
              reducer server Login.defaultValues Login.noErrors
              "/auth/login" (p_values p) None
              "Failed to Log In !" "Failed to Login:" (Login.checked S p))
    as (p' & middle & E & _ & Herr & Hev & Hpost & _).
  exists p', middle.
  assert (Hrun : Login.onSubmit S reducer server p
                 = Login.toastErrors S (p_errors p') p').
  { rewrite login_onSubmit_cases, H, login_is_flow, E. reflexivity. }
  rewrite Hrun, login_toastErrors_none.
  - repeat split; auto.
  - destruct Herr as [-> | ->]; [exact H | reflexivity].
Qed.

(** X19: [fillCredentials] replaces both values of the form, whatever they were,
    shows its toast and validates nothing: the stored errors stay.  A submit
    that follows posts exactly those credentials, once, when they have the
    accepted shape. *)
Theorem filled_credentials_are_posted (p : LoginPage) (u w : JsString) :
  Login.fillCredentials S u w p
  = (Returned tt,
     mkPage (p_store p) (Login.mkData (Some u) (Some w)) (p_errors p)
            (p_loading p) (p_location p)
            (p_trace p
             ++ [SetValue "username" u; SetValue "password" w;
                 ToastSuccess "Credentials filled successfully !"]))
  /\ (4 <= List.length u <= 12 -> forallb isWordUnit u = true ->
      6 <= List.length w <= 16 -> hasAllKinds (firstLine w) = true ->
      let filled := snd (Login.fillCredentials S u w p) in
      filter isPost
        (pageEventsSince filled (snd (Login.onSubmit S reducer server filled)))
      = [Post "/auth/login" (Login.mkData (Some u) (Some w)) None]).
Proof.
  assert (Hfill : Login.fillCredentials S u w p
    = (Returned tt,
       mkPage (p_store p) (Login.mkData (Some u) (Some w)) (p_errors p)
              (p_loading p) (p_location p)
              (p_trace p
               ++ [SetValue "username" u; SetValue "password" w;
                   ToastSuccess "Credentials filled successfully !"]))).
  { unfold Login.fillCredentials, pbind, Login.setValue, toastSuccess, record.
    cbn. rewrite <- !app_assoc. reflexivity. }
  split; [exact Hfill|].
  intros Hu1 Hu2 Hw1 Hw2 filled. subst filled. rewrite Hfill. cbn [snd].
  set (q := mkPage _ _ _ _ _ _).
  assert (Hvalid : Login.isEmptyObject (Login.schema (p_values q)) = true).
  { unfold Login.isEmptyObject, Login.schema, q.
    cbn [p_values Login.username Login.password Login.err_username
         Login.err_password].
    rewrite (proj2 (proj1 (schemas_agree (Some u)))
               (proj2 (username_rules u) (conj Hu1 Hu2))).
    rewrite (proj2 (proj2 (schemas_agree (Some w)))
               (proj2 (password_rules w) (conj Hw1 Hw2))).
    reflexivity. }
  destruct (login_onSubmit_valid q Hvalid) as (p' & middle & E & Hev & Hpost).
  rewrite E. cbn [snd]. rewrite Hev.
  cbn [filter isPost]. rewrite filter_app, Hpost. reflexivity.
Qed.

End LoginFacts.

(** ** The theorems on sample forms *)

Lemma signup_username_accepted_exactly_witness :
  Yup.validate SignUp.usernameSchema (Some (units "alice_1")) = None.
Proof.
  apply (proj2 (signup_username_accepted_exactly (Some (units "alice_1")))).
  exists (units "alice_1"). repeat split; cbn; lia.
Defined.

Lemma signup_username_message_witness :
  Yup.validate SignUp.usernameSchema (Some (units "al"))
  = Some "Username must be at least 4 characters !".
Proof.
  destruct (signup_username_message (Some (units "al"))) as (_ & H & _).
  apply (H (units "al")); [reflexivity | cbn; lia].
Defined.

Lemma signup_password_accepted_exactly_witness :
  Yup.validate SignUp.passwordSchema (Some (units "Passw0rd!")) = None.
Proof.
  apply (proj2 (signup_password_accepted_exactly (Some (units "Passw0rd!")))).
  exists (units "Passw0rd!"). repeat split; cbn; lia.
Defined.

Lemma password_rule_reads_first_line_witness :
  Yup.validate SignUp.passwordSchema (Some (10%N :: units "Passw0rd!")) <> None.
Proof.
  apply (password_rule_reads_first_line [] 10%N (units "Passw0rd!")).
  reflexivity.
Defined.

Lemma login_accepts_what_signup_accepts_witness :
  Yup.validate Login.passwordSchema (Some (units "Passw0rd!")) = None.
Proof.
  apply (proj2 (proj2 (login_accepts_what_signup_accepts
                         (Some (units "Passw0rd!"))))).
  reflexivity.
Defined.

Lemma signup_rejected_request_witness :
  p_values (snd (SignUp.signup nat countingReducer rejectingServer aliceForm
                   (signupPage aliceForm))) = aliceForm
  /\ filter isToast
       (p_trace (snd (SignUp.signup nat countingReducer rejectingServer
                        aliceForm (signupPage aliceForm))))
     = [ToastError "Failed to Sign Up !"].
Proof.
  destruct (signup_rejected_request nat countingReducer rejectingServer
              aliceForm (signupPage aliceForm) (AxiosError None) eq_refl)
    as [E _].
  rewrite E. split; reflexivity.
Defined.

Lemma signup_accepted_request_witness :
  p_location (snd (SignUp.signup nat countingReducer acceptingServer aliceForm
                     (signupPage aliceForm))) = "/"
  /\ p_store (snd (SignUp.signup nat countingReducer acceptingServer aliceForm
                     (signupPage aliceForm))) = 2.
Proof.
  rewrite (signup_accepted_request nat countingReducer acceptingServer
             aliceForm (signupPage aliceForm) "Welcome !" 1 2
             eq_refl eq_refl eq_refl).
  split; reflexivity.
Defined.

Lemma signup_reports_failure_after_accepted_request_witness :
  filter isToast
    (p_trace (snd (SignUp.signup nat throwingReducer acceptingServer aliceForm
                     (signupPage aliceForm))))
  = [ToastError "Failed to Sign Up !"].
Proof.
  destruct (signup_reports_failure_after_accepted_request nat throwingReducer
              acceptingServer aliceForm (signupPage aliceForm) "Welcome !"
              (OtherError "reducer failed") eq_refl) as [H _].
  rewrite (H eq_refl). reflexivity.
Defined.

Lemma signup_validation_is_gated_witness :
  p_trace (snd (SignUp.validation nat countingReducer acceptingServer
                  aliceForm (signupPage shortNameForm))) = [].
Proof.
  destruct (signup_validation_is_gated nat countingReducer acceptingServer
              aliceForm (signupPage shortNameForm)) as [H _].
  rewrite (H eq_refl). reflexivity.
Defined.

Lemma submit_posts_validated_data_witness :
  In (Post "/auth/signup" (SignUp.requestBody aliceForm)
           (Some "multipart/form-data"))
     (pageEventsSince (signupPage aliceForm)
        (snd (SignUp.onSubmit nat countingReducer acceptingServer
                (signupPage aliceForm))))
  /\ SignUp.body_avatar (SignUp.requestBody aliceForm)
     = Some (mkFile "image/png" 1000)
  /\ In "image/png" acceptedImageTypes.
Proof.
  assert (Hin : In (Post "/auth/signup" (SignUp.requestBody aliceForm)
                         (Some "multipart/form-data"))
                   (pageEventsSince (signupPage aliceForm)
                      (snd (SignUp.onSubmit nat countingReducer acceptingServer
                              (signupPage aliceForm))))).
  { vm_compute. auto. }
  split; [exact Hin|]. split; [reflexivity|].
  destruct (submit_posts_validated_data nat countingReducer acceptingServer
              (signupPage aliceForm) _ _ _ Hin) as (_ & _ & _ & _ & _ & H).
  exact (proj1 (H (mkFile "image/png" 1000) eq_refl)).
Defined.

Lemma invalid_submit_toasts_first_error_witness :
  exists message,
    SignUp.onSubmit nat countingReducer acceptingServer
      (signupPage shortNameForm)
    = (Returned tt,
       mkPage 0 shortNameForm (SignUp.schema shortNameForm) false "/signup"
              [ToastError message])
    /\ message = "Username must be at least 4 characters !".
Proof.
  destruct (invalid_submit_toasts_first_error nat countingReducer
              acceptingServer (signupPage shortNameForm) eq_refl)
    as (message & E & H).
  exists message. split; [exact E | exact H].
Defined.

Lemma login_outcomes_witness :
  p_location (snd (Login.login nat countingReducer acceptingServer aliceLogin
                     (loginPage aliceLogin))) = "/"
  /\ p_location (snd (Login.login nat countingReducer rejectingServer
                        aliceLogin (loginPage aliceLogin))) = "/login".
Proof.
  destruct (login_outcomes nat countingReducer acceptingServer aliceLogin
              (loginPage aliceLogin)) as [_ Hok].
  destruct (login_outcomes nat countingReducer rejectingServer aliceLogin
              (loginPage aliceLogin)) as [Hfail _].
  rewrite (Hok "Welcome !" 1 2 eq_refl eq_refl eq_refl).
  rewrite (Hfail (AxiosError None) eq_refl).
  split; reflexivity.
Defined.

Lemma filled_credentials_are_posted_witness :
  filter isPost
    (pageEventsSince
       (snd (Login.fillCredentials nat (units "alice_1") (units "Passw0rd!")
               (loginPage Login.defaultValues)))
       (snd (Login.onSubmit nat countingReducer acceptingServer
               (snd (Login.fillCredentials nat (units "alice_1")
                       (units "Passw0rd!") (loginPage Login.defaultValues))))))
  = [Post "/auth/login" aliceLogin None].
Proof.
  destruct (filled_credentials_are_posted nat countingReducer acceptingServer
              (loginPage Login.defaultValues) (units "alice_1")
              (units "Passw0rd!")) as [_ H].
  apply H; cbn; try lia; reflexivity.
Defined.
